(** * atlas-ti-parser: the tactic overview pipeline of [main.py]

    A shallow embedding of the script that turns an ATLAS.ti XML export into
    the twelve-column tactic table, and the properties of its stages.

    Conventions of the embedding.
    - A Python [str] is a [string]; its characters are read as the code points
      0..255.  The pattern and [str] routines work on the character list of
      the string.
    - The parsed document is the record [document]: for each [findall] of the
      script the list of elements it returns, in document order, each element
      reduced to the attributes the script reads (every element is taken to
      carry them).
    - A [dict] that is only read by key is a [gmap]; a [dict] whose iteration
      order reaches the output is an association list in insertion order; a
      [set] of code ids is a [gset].
    - An uncaught exception is the [Raise] case of [result].
    - The calls into [re] and pandas are modelled by what they compute on the
      values the script passes: [re.search] by a backtracking matcher for the
      constructs of the two patterns, the frame operations by functions on a
      small [data_frame] record.
    - Where the outcome depends on the version of pandas, the model carries
      the choice: [index_rule] names the two ways [DataFrame.from_dict] has
      labelled the rows of a frame, and the statements about a frame range
      over both.  [int] is Python's, with its default limit on the digits
      of a literal.
    - [run] is steps 2 to 8 of the script: from the parsed document to the
      sorted frame that step 9 writes out.  Writing the spreadsheet is not
      part of it. *)

From Stdlib Require Import Ascii String ZArith List Lia Sorting.Sorted Permutation.
From stdpp Require Import gmap strings list fin_maps sorting.

Local Open Scope list_scope.

(** ** Characters and strings *)

Module Str.

Abbreviation chars := list_ascii_of_string.
Abbreviation of_chars := string_of_list_ascii.

(** [\s] and [str.strip]: the white space of [str.isspace], on the code
    points below 256. *)
Definition is_space (c : ascii) : bool :=
  match c with
  | "009" | "010" | "011" | "012" | "013"
  | "028" | "029" | "030" | "031" | " "
  | "133" | "160" => true
  | _ => false
  end%char.

(** [\d]: the decimal digits; below 256 these are 0..9. *)
Definition is_digit (c : ascii) : bool :=
  match c with
  | "0" | "1" | "2" | "3" | "4" | "5" | "6" | "7" | "8" | "9" => true
  | _ => false
  end%char.

Fixpoint take_while (p : ascii -> bool) (s : list ascii) : list ascii :=
  match s with
  | c :: s' => if p c then c :: take_while p s' else []
  | [] => []
  end.

Fixpoint drop_while (p : ascii -> bool) (s : list ascii) : list ascii :=
  match s with
  | c :: s' => if p c then drop_while p s' else s
  | [] => []
  end.

Definition lstrip (s : list ascii) : list ascii := drop_while is_space s.
Definition rstrip (s : list ascii) : list ascii :=
  rev (drop_while is_space (rev s)).
(** [s.strip()] *)
Definition strip (s : list ascii) : list ascii := lstrip (rstrip s).

(** [sep.join(parts)] *)
Fixpoint join (sep : string) (parts : list string) : string :=
  match parts with
  | [] => ""
  | [p] => p
  | p :: ps => p +:+ sep +:+ join sep ps
  end.

(** A [str] in a condition: true when it is not empty. *)
Definition truthy (s : string) : bool :=
  match s with EmptyString => false | _ => true end.

End Str.

(** ** The fragment of [re] the script uses *)

Module Re.

(** Patterns: literal characters, greedy repetition of a character class,
    the capturing group, the end anchor, and concatenation. *)
Inductive regex : Type :=
| Chr (c : ascii)
| Star (p : ascii -> bool)
| Plus (p : ascii -> bool)
| Group (r : regex)
| Dollar
| Seq (r1 r2 : regex).

(** Greedy repetition with backtracking: the longest run is tried first,
    then shorter ones, until the rest of the pattern [k] succeeds. *)
Fixpoint star_greedy {R} (p : ascii -> bool) (s : list ascii)
    (k : list ascii -> option R) : option R :=
  match s with
  | c :: s' =>
      if p c then
        match star_greedy p s' k with
        | Some r => Some r
        | None => k s
        end
      else k s
  | [] => k []
  end.

(** [$] without MULTILINE: the end of the string, or just before a newline
    that ends the string. *)
Definition at_end (s : list ascii) : bool :=
  match s with
  | [] => true
  | ["010"%char] => true
  | _ => false
  end.

(** The backtracking matcher, anchored at the head of [s].  [g] is the text
    of group 1 so far and [k] the rest of the pattern. *)
Fixpoint rmatch (r : regex) (s : list ascii) (g : list ascii)
    (k : list ascii -> list ascii -> option (list ascii))
    : option (list ascii) :=
  match r with
  | Chr c =>
      match s with
      | c' :: s' => if Ascii.eqb c c' then k s' g else None
      | [] => None
      end
  | Star p => star_greedy p s (fun s' => k s' g)
  | Plus p =>
      match s with
      | c :: s' => if p c then star_greedy p s' (fun s'' => k s'' g) else None
      | [] => None
      end
  | Group r1 =>
      rmatch r1 s g
        (fun s' _ => k s' (take (length s - length s') s))%nat
  | Dollar => if at_end s then k s g else None
  | Seq r1 r2 => rmatch r1 s g (fun s' g' => rmatch r2 s' g' k)
  end.

(** A match anchored at the head of [s]; the value is [group(1)]. *)
Definition match_here (r : regex) (s : list ascii) : option (list ascii) :=
  rmatch r s [] (fun _ g => Some g).

(** The match object, as far as the script reads it. *)
Record re_match : Type := MkMatch {
  m_start : nat;           (* m.start() *)
  m_group1 : list ascii    (* m.group(1) *)
}.

(** [re.search]: the first position, from the left, where the pattern
    matches. *)
Fixpoint search_from (r : regex) (s : list ascii) (pos : nat)
    : option re_match :=
  match match_here r s with
  | Some g => Some (MkMatch pos g)
  | None =>
      match s with
      | [] => None
      | _ :: s' => search_from r s' (S pos)
      end
  end.

Definition search (r : regex) (s : string) : option re_match :=
  search_from r (Str.chars s) 0.

End Re.

(** [r"\s*\(T(\d+)\)\s*$"] *)
Definition code_suffix_re : Re.regex :=
  Re.Seq (Re.Star Str.is_space)
    (Re.Seq (Re.Chr "(") (Re.Seq (Re.Chr "T")
      (Re.Seq (Re.Group (Re.Plus Str.is_digit))
        (Re.Seq (Re.Chr ")") (Re.Seq (Re.Star Str.is_space) Re.Dollar))))).

(** [r"\(AT(\d+)\)"] *)
Definition quote_marker_re : Re.regex :=
  Re.Seq (Re.Chr "(") (Re.Seq (Re.Chr "A") (Re.Seq (Re.Chr "T")
    (Re.Seq (Re.Group (Re.Plus Str.is_digit)) (Re.Chr ")")))).

(** ** Exceptions *)

Inductive exn : Type :=
| KeyError (key : string)
| ValueError (literal : string)
| OverflowError (literal : string).

Inductive result (A : Type) : Type :=
| Ok (a : A)
| Raise (e : exn).
Arguments Ok {A} a.
Arguments Raise {A} e.

Definition bind {A B} (m : result A) (f : A -> result B) : result B :=
  match m with
  | Ok a => f a
  | Raise e => Raise e
  end.

Notation "'let*' x ':=' m 'in' k" := (bind m (fun x => k))
  (at level 10, x name, m at level 100, k at level 200).

(** Left-to-right evaluation of [f] over a list; the first exception ends it. *)
Fixpoint map_result {A B} (f : A -> result B) (l : list A)
    : result (list B) :=
  match l with
  | [] => Ok []
  | a :: l' =>
      let* b := f a in
      let* bs := map_result f l' in
      Ok (b :: bs)
  end.

(** A [for] loop that updates [acc]; the first exception ends it. *)
Fixpoint fold_result {A S} (f : S -> A -> result S) (acc : S) (l : list A)
    : result S :=
  match l with
  | [] => Ok acc
  | a :: l' => let* acc' := f acc a in fold_result f acc' l'
  end.

(** ** Insertion-ordered dictionaries and [sorted] *)

Section Dict.
Context {V : Type}.

(** [d[k] = v]: an existing key keeps its place, a new key goes last. *)
Fixpoint dict_set (k : string) (v : V) (d : list (string * V))
    : list (string * V) :=
  match d with
  | [] => [(k, v)]
  | (k', v') :: d' =>
      if decide (k' = k) then (k', v) :: d' else (k', v') :: dict_set k v d'
  end.

Fixpoint dict_get (k : string) (d : list (string * V)) : option V :=
  match d with
  | [] => None
  | (k', v') :: d' => if decide (k' = k) then Some v' else dict_get k d'
  end.

(** [{k: v for (k, v) in kvs}] *)
Definition dict_of (kvs : list (string * V)) : list (string * V) :=
  fold_left (fun d kv => dict_set kv.1 kv.2 d) kvs [].
End Dict.

Section Sorted.
Context {A : Type} (leb : A -> A -> bool).

Fixpoint insert_sorted (x : A) (l : list A) : list A :=
  match l with
  | [] => [x]
  | y :: l' => if leb x y then x :: l else y :: insert_sorted x l'
  end.

(** [sorted(l)]: a stable sort, here by insertion from the right. *)
Fixpoint sorted (l : list A) : list A :=
  match l with
  | [] => []
  | x :: l' => insert_sorted x (sorted l')
  end.
End Sorted.

(** ** The parsed document *)

(** [<code id name>] *)
Record code_el : Type := Code { c_id : string; c_name : string }.
(** [<q id name>] *)
Record q_el : Type := Q { q_id : string; q_name : string }.
(** [<codeFamily id name>] with the ids of its [<item id>] children *)
Record family_el : Type :=
  CodeFamily { cf_id : string; cf_name : string; cf_items : list string }.
(** [<iLink obj qRef>] *)
Record ilink_el : Type := ILink { l_obj : string; l_qRef : string }.

Record document : Type := Document {
  doc_codes : list code_el;          (* ./codes/code *)
  doc_quotations : list q_el;        (* .//primDoc//quotations/q *)
  doc_families : list family_el;     (* ./families/codeFamilies/codeFamily *)
  doc_codings : list ilink_el        (* ./links/objectSegmentLinks/codings/iLink *)
}.

(** ** Step 2: code names and tactic overrides *)

Record code_index : Type := CodeIndex {
  code_to_name : gmap string string;
  code_to_tactic_override : gmap string string
}.

Definition code_index_step (ix : code_index) (c : code_el) : code_index :=
  let cid := c_id c in
  let raw := c_name c in
  match Re.search code_suffix_re raw with
  | Some m =>
      let tn := Str.of_chars (Re.m_group1 m) in
      let name :=
        Str.of_chars (Str.strip (take (Re.m_start m) (Str.chars raw))) in
      CodeIndex (<[cid := name]> (code_to_name ix))
                (<[cid := tn]> (code_to_tactic_override ix))
  | None =>
      CodeIndex (<[cid := raw]> (code_to_name ix))
                (code_to_tactic_override ix)
  end.

Definition build_code_index (codes : list code_el) : code_index :=
  fold_left code_index_step codes (CodeIndex ∅ ∅).

(** ** Step 3: quotations and the marker fallback *)

Record quote : Type := Quote {
  qid : string;
  order : nat;
  tactic : option string
}.

(** [atn]: the digits of the first [(AT<digits>)] in the name, or [None]. *)
Definition marker_tactic (name : string) : option string :=
  match Re.search quote_marker_re name with
  | Some m_at => Some (Str.of_chars (Re.m_group1 m_at))
  | None => None
  end.

Fixpoint enumerate_quotes (idx : nat) (qs : list q_el) : list quote :=
  match qs with
  | [] => []
  | q :: qs' =>
      Quote (q_id q) idx (marker_tactic (q_name q))
        :: enumerate_quotes (S idx) qs'
  end.

Definition quotes (doc : document) : list quote :=
  enumerate_quotes 0 (doc_quotations doc).

Definition quotes_by_id (qs : list quote) : gmap string quote :=
  fold_left (fun m q => <[qid q := q]> m) qs ∅.

(** [if q["tactic"]]: neither [None] nor the empty string. *)
Definition has_tactic (q : quote) : bool :=
  match tactic q with
  | Some t => Str.truthy t
  | None => false
  end.

Definition order_leb (a b : quote) : bool := (order a <=? order b)%nat.

Definition title_quotes (qs : list quote) : list quote :=
  sorted order_leb (List.filter has_tactic qs).

(** The loop of [find_tactic_for] over [reversed(title_quotes)]. *)
Fixpoint scan_titles (tqs : list quote) (ord : nat) : option string :=
  match tqs with
  | [] => None
  | tq :: rest =>
      if (order tq <=? ord)%nat then tactic tq else scan_titles rest ord
  end.

Definition find_tactic_for (qs : list quote) (q : string)
    : result (option string) :=
  match quotes_by_id qs !! q with
  | None => Raise (KeyError q)
  | Some rec => Ok (scan_titles (rev (title_quotes qs)) (order rec))
  end.

(** ** Step 4: families *)

Definition families (doc : document)
    : list (string * (string * list string)) :=
  dict_of (map (fun cf => (cf_id cf, (cf_name cf, cf_items cf)))
               (doc_families doc)).

(** ** Step 5: code to tactic assignments *)

(** [code_to_tactic_override.get(cid) or find_tactic_for(qid)] *)
Definition effective_tactic (ix : code_index) (qs : list quote)
    (link : ilink_el) : result (option string) :=
  match code_to_tactic_override ix !! l_obj link with
  | Some t =>
      if Str.truthy t then Ok (Some t) else find_tactic_for qs (l_qRef link)
  | None => find_tactic_for qs (l_qRef link)
  end.

(** [tactic_codes[tac].add(cid)] on a [defaultdict(set)] *)
Definition add_code (tac cid : string) (tcs : list (string * gset string))
    : list (string * gset string) :=
  match dict_get tac tcs with
  | Some cids => dict_set tac ({[cid]} ∪ cids) tcs
  | None => dict_set tac {[cid]} tcs
  end.

Definition link_step (ix : code_index) (qs : list quote)
    (tcs : list (string * gset string)) (link : ilink_el)
    : result (list (string * gset string)) :=
  let* tac := effective_tactic ix qs link in
  match tac with
  | Some t => if Str.truthy t then Ok (add_code t (l_obj link) tcs) else Ok tcs
  | None => Ok tcs
  end.

Definition tactic_codes (ix : code_index) (qs : list quote)
    (links : list ilink_el) : result (list (string * gset string)) :=
  fold_result (link_step ix qs) [] links.

(** ** Step 6: one row per tactic, one cell per family *)

(** [sorted(cids & set(fam_code_ids))]: the common ids in ascending order of
    the id strings. *)
Definition hits (cids : gset string) (fam_code_ids : list string)
    : list string :=
  sorted String.leb (elements (cids ∩ list_to_set fam_code_ids)).

(** [code_to_name[c]] *)
Definition name_of (names : gmap string string) (c : string) : result string :=
  match names !! c with
  | Some n => Ok n
  | None => Raise (KeyError c)
  end.

(** ["; ".join(code_to_name[c] for c in hits) if hits else ""] *)
Definition cell (names : gmap string string) (cids : gset string)
    (fam_code_ids : list string) : result string :=
  match hits cids fam_code_ids with
  | [] => Ok ""
  | hs => let* ns := map_result (name_of names) hs in Ok (Str.join "; " ns)
  end.

Definition row_step (names : gmap string string) (cids : gset string)
    (row : list (string * string)) (fam : string * (string * list string))
    : result (list (string * string)) :=
  let '(_, (fam_name, fam_code_ids)) := fam in
  let* c := cell names cids fam_code_ids in
  Ok (dict_set fam_name c row).

Definition build_row (names : gmap string string)
    (fams : list (string * (string * list string))) (cids : gset string)
    : result (list (string * string)) :=
  fold_result (row_step names cids) [] fams.

Definition output_step (names : gmap string string)
    (fams : list (string * (string * list string)))
    (out : list (string * list (string * string)))
    (tc : string * gset string)
    : result (list (string * list (string * string))) :=
  let* row := build_row names fams tc.2 in
  Ok (dict_set tc.1 row out).

Definition build_output (names : gmap string string)
    (fams : list (string * (string * list string)))
    (tcs : list (string * gset string))
    : result (list (string * list (string * string))) :=
  fold_result (output_step names fams) [] tcs.

(** ** Step 7: the data frame and its twelve columns *)

(** A frame: the column labels, and per row its index label and one cell per
    column; [None] is a missing value (NaN), written as an empty cell. *)
Record data_frame : Type := DataFrame {
  df_columns : list string;
  df_rows : list (string * list (option string))
}.

Fixpoint add_labels (seen new : list string) : list string :=
  match new with
  | [] => seen
  | c :: new' =>
      add_labels (if decide (c ∈ seen) then seen else seen ++ [c]) new'
  end.

(** The union of the label lists [f x], in order of first appearance. *)
Definition union_labels {X} (f : X -> list string) (xs : list X)
    : list string :=
  fold_left (fun seen x => add_labels seen (f x)) xs [].

(** The labels of the rows that have an entry for column [c]. *)
Definition rows_with (out : list (string * list (string * string)))
    (c : string) : list string :=
  map fst (List.filter (fun r => bool_decide (c ∈ map fst r.2)) out).

(** How [DataFrame.from_dict] finds the row labels of the frame.  pandas
    up to 3.0 turns the mapping inside out, into one dict per column
    ([new_data[col][index] = v] for every entry of every row), and takes
    the labels from the keys of these dicts, column by column: a row without
    any entry contributes no label and is no row of the frame.  Later
    versions take the keys of the mapping, in its order.  The script does
    not say which pandas it runs on. *)
Inductive index_rule : Type :=
| FromColumns
| FromKeys.

(** [pd.DataFrame.from_dict(output, orient="index")] on a dict of dicts: the
    column labels are the keys of the rows in order of first appearance, the
    row labels follow the [index_rule], and an absent entry is a missing
    value. *)
Definition from_dict (how : index_rule)
    (out : list (string * list (string * string))) : data_frame :=
  let columns := union_labels (fun r => map fst r.2) out in
  let index :=
    match how with
    | FromColumns => union_labels (rows_with out) columns
    | FromKeys => map fst out
    end in
  DataFrame columns
    (map (fun i =>
            (i, map (fun c =>
                       match dict_get i out with
                       | Some row => dict_get c row
                       | None => None
                       end) columns))
         index).

(** The cell of a row under the column labelled [c]. *)
Fixpoint cell_at (columns : list string) (cells : list (option string))
    (c : string) : option string :=
  match columns, cells with
  | c' :: columns', v :: cells' =>
      if decide (c' = c) then v else cell_at columns' cells' c
  | _, _ => None
  end.

(** [df.reindex(columns=new_columns)]: a label that is not a column of [df]
    gives a column of missing values. *)
Definition reindex (new_columns : list string) (df : data_frame) : data_frame :=
  DataFrame new_columns
    (map (fun r => (r.1, map (cell_at (df_columns df) r.2) new_columns))
         (df_rows df)).

Definition cols : list string :=
  [ "1. Title";
    "2. Description";
    "3. Participant";
    "4. Related Software Artifact";
    "5. Context";
    "6. Software Feature";
    "7. Tactic Intent";
    "8. Target Quality Attribute";
    "9. Other Related Quality Attributes";
    "10. Measured Impact";
    "11. Level of abstraction";
    "12. Tool or framework" ].

(** ** Step 8: rows in numeric order of the tactic *)

Module PyInt.

Definition digit_value (c : ascii) : Z :=
  Z.of_nat (nat_of_ascii c) - 48.

(** The digits of a decimal literal, with single underscores allowed
    between digits; [prev] tells whether the previous character was a
    digit. *)
Fixpoint digits (acc : Z) (prev : bool) (s : list ascii) : option Z :=
  match s with
  | [] => if prev then Some acc else None
  | c :: s' =>
      if Str.is_digit c then digits (10 * acc + digit_value c) true s'
      else if Ascii.eqb c "_" then
        if prev then digits acc false s' else None
      else None
  end.

(** The white space [int] skips around a literal: the ASCII white space of
    C, and the non-ASCII white space of [str.isspace]. *)
Definition is_int_space (c : ascii) : bool :=
  match c with
  | "009" | "010" | "011" | "012" | "013" | " " | "133" | "160" => true
  | _ => false
  end%char.

Definition int_strip (s : list ascii) : list ascii :=
  Str.drop_while is_int_space (rev (Str.drop_while is_int_space (rev s))).

(** [sys.get_int_max_str_digits()]: the default limit on the digits of a
    decimal literal that [int] converts. *)
Definition max_str_digits : nat := 4300.

(** The value of an unsigned literal; a literal with more digits than the
    limit is refused. *)
Definition literal (r : list ascii) : option Z :=
  if (length (List.filter Str.is_digit r) <=? max_str_digits)%nat
  then digits 0 false r
  else None.

(** [int(s)] for a [str]: white space around, an optional sign, digits.
    [None] stands for the [ValueError]. *)
Definition parse (s : string) : option Z :=
  match int_strip (Str.chars s) with
  | "+"%char :: r => literal r
  | "-"%char :: r => Z.opp <$> literal r
  | r => literal r
  end.

(** One element of [idx.astype(int)]: [int(s)], stored as a signed 64-bit
    integer. *)
Definition astype_int (s : string) : result Z :=
  match parse s with
  | None => Raise (ValueError s)
  | Some z =>
      if ((- 2 ^ 63 <=? z) && (z <? 2 ^ 63))%Z then Ok z
      else Raise (OverflowError s)
  end.

End PyInt.

Definition key_leb {A} (a b : Z * A) : bool := (a.1 <=? b.1)%Z.

(** [df.sort_index(key=lambda idx: idx.astype(int))].  Rows with equal keys
    keep their order here; the sort pandas uses by default does not promise
    that, and nothing below depends on it. *)
Definition sort_index (df : data_frame) : result data_frame :=
  let* keys := map_result PyInt.astype_int (map fst (df_rows df)) in
  Ok (DataFrame (df_columns df)
        (map snd (sorted key_leb (combine keys (df_rows df))))).

(** ** Steps 2 to 8: from the document to the frame that is written out *)

Definition run (how : index_rule) (doc : document) : result data_frame :=
  let ix := build_code_index (doc_codes doc) in
  let qs := quotes doc in
  let fams := families doc in
  let* tcs := tactic_codes ix qs (doc_codings doc) in
  let* output := build_output (code_to_name ix) fams tcs in
  let df := reindex cols (from_dict how output) in
  sort_index df.

Definition paper_example : document :=
  Document
    [ Code "c1" "Zeta (T1)"; Code "c2" "Alpha"; Code "c3" "Cache (T10)";
      Code "c4" "Pool" ]
    [ Q "q0" "preface"; Q "q1" "Title (AT9) one"; Q "q2" "body";
      Q "q3" "Next (AT10)(AT3)"; Q "q4" "more" ]
    [ CodeFamily "f1" "1. Title" ["c1"; "c2"];
      CodeFamily "f2" "5. Context" ["c3"; "c4"; "c2"];
      CodeFamily "f3" "Unlisted" ["c1"] ]
    [ ILink "c1" "q0"; ILink "c2" "q4"; ILink "c4" "q2"; ILink "c2" "q1";
      ILink "c3" "nowhere"; ILink "c4" "q0" ].

(** ** Notions used to state the properties *)

(** The digits after the opening of a marker, when they are closed by [")"]
    and followed by [rest]. *)
Definition closed_digits (s : list ascii) : option (list ascii * list ascii) :=
  match Str.take_while Str.is_digit s, Str.drop_while Str.is_digit s with
  | (_ :: _) as ds, ")"%char :: rest => Some (ds, rest)
  | _, _ => None
  end.

(** An occurrence of the marker [(AT<digits>)] in [s], after the prefix
    [pre] and with the digits [ds]. *)
Definition marker_occurs (s pre ds : list ascii) : Prop :=
  ds <> [] /\ forallb Str.is_digit ds = true /\
  exists post, s = pre ++ Str.chars "(AT" ++ ds ++ ")"%char :: post.

(** The display name as the specification words it: the raw name with the
    matched suffix and any trailing white space removed, the rest, leading
    white space included, unchanged. *)
Definition display_name_spec (raw : string) : string :=
  match Re.search code_suffix_re raw with
  | Some m => Str.of_chars (Str.rstrip (take (Re.m_start m) (Str.chars raw)))
  | None => raw
  end.

(** The cell as the specification words it: the display names of the codes
    common to the tactic and the family, sorted by display name, joined
    with ["; "]. *)
Definition cell_by_display_name (names : gmap string string)
    (cids : gset string) (fam_code_ids : list string) : result string :=
  let* ns := map_result (name_of names)
               (elements (cids ∩ list_to_set fam_code_ids)) in
  Ok (Str.join "; " (sorted String.leb ns)).




Definition unsorted_names_example : document :=
  Document
    [ Code "c1" "Zeta (T1)"; Code "c2" "Alpha (T1)" ]
    [ Q "q0" "Title (AT1)" ]
    [ CodeFamily "f1" "1. Title" ["c1"; "c2"] ]
    [ ILink "c1" "q0"; ILink "c2" "q0" ].


(** The raw name ends, white space apart, in a tactic suffix [(T<digits>)]. *)
Definition has_tactic_suffix (s : list ascii) : Prop :=
  exists pre ds ws,
    s = pre ++ Str.chars "(T" ++ ds ++ ")"%char :: ws
    /\ ds <> [] /\ forallb Str.is_digit ds = true
    /\ forallb Str.is_space ws = true.

(** The code [c] is filed under the tactic [t]. *)
Definition filed (tcs : list (string * gset string)) (t c : string) : Prop :=
  exists cids, dict_get t tcs = Some cids /\ c ∈ cids.

(** The link is one the aggregator files under [t]: its effective tactic is
    [t], and [t] passes the test [if tac]. *)
Definition files_under (ix : code_index) (qs : list quote) (link : ilink_el)
    (t : string) : Prop :=
  effective_tactic ix qs link = Ok (Some t) /\ Str.truthy t = true.

(** The decimal value of a string of digits. *)
Definition decimal (ds : list ascii) : Z :=
  fold_left (fun a c => (10 * a + PyInt.digit_value c)%Z) ds 0%Z.

(** * Properties *)

#[local] Arguments Ascii.eqb : simpl never.

(** ** Character runs *)

Section Runs.
Variable p : ascii -> bool.

Lemma take_drop_while s : Str.take_while p s ++ Str.drop_while p s = s.
Proof.
  induction s as [|c s IH]; simpl; [done|].
  destruct (p c); simpl; [by rewrite IH | done].
Qed.

Lemma take_while_all s : forallb p (Str.take_while p s) = true.
Proof.
  induction s as [|c s IH]; simpl; [done|].
  destruct (p c) eqn:E; simpl; [by rewrite E | done].
Qed.

Lemma drop_while_app_all w s :
  forallb p w = true -> Str.drop_while p (w ++ s) = Str.drop_while p s.
Proof.
  induction w as [|c w IH]; simpl; [done|].
  intros [-> Hw]%andb_prop. auto.
Qed.

Lemma drop_while_stop c s :
  p c = false -> Str.drop_while p (c :: s) = c :: s.
Proof. simpl. by intros ->. Qed.

Lemma take_while_app_stop w c s :
  forallb p w = true -> p c = false ->
  Str.take_while p (w ++ c :: s) = w.
Proof.
  intros Hw Hc. induction w as [|d w IH]; simpl in *.
  - by rewrite Hc.
  - apply andb_prop in Hw as [-> Hw]. by rewrite IH.
Qed.

Lemma drop_while_all w : forallb p w = true -> Str.drop_while p w = [].
Proof.
  intros Hw. rewrite <- (app_nil_r w). by rewrite drop_while_app_all.
Qed.

(** A run of [p] followed by a character outside [p] splits a string in
    one way only. *)
Lemma run_unique w1 c1 s1 w2 c2 s2 :
  forallb p w1 = true -> forallb p w2 = true ->
  p c1 = false -> p c2 = false ->
  w1 ++ c1 :: s1 = w2 ++ c2 :: s2 ->
  w1 = w2 /\ c1 = c2 /\ s1 = s2.
Proof.
  revert w2. induction w1 as [|d w1 IH]; intros [|e w2]; simpl;
    intros H1 H2 Hc1 Hc2 Heq.
  - by inversion Heq.
  - inversion Heq; subst. apply andb_prop in H2 as [? _]. congruence.
  - inversion Heq; subst. apply andb_prop in H1 as [? _]. congruence.
  - inversion Heq; subst.
    apply andb_prop in H1 as [_ H1]. apply andb_prop in H2 as [_ H2].
    destruct (IH w2 H1 H2 Hc1 Hc2) as (-> & -> & ->); done.
Qed.
End Runs.

Lemma forallb_rev {A} (p : A -> bool) l :
  forallb p (rev l) = forallb p l.
Proof.
  induction l as [|a l IH]; simpl; [done|].
  rewrite forallb_app, IH. simpl. rewrite andb_true_r. apply andb_comm.
Qed.

Lemma rstrip_app_space x w :
  forallb Str.is_space w = true -> Str.rstrip (x ++ w) = Str.rstrip x.
Proof.
  intros Hw. unfold Str.rstrip. rewrite rev_app_distr.
  rewrite drop_while_app_all; [done|]. by rewrite forallb_rev.
Qed.

Lemma strip_app_space x w :
  forallb Str.is_space w = true -> Str.strip (x ++ w) = Str.strip x.
Proof. intros Hw. unfold Str.strip. by rewrite rstrip_app_space. Qed.

(** ** The matcher *)

Section Star.
Context {R : Type} (p : ascii -> bool) (k : list ascii -> option R).

(** When the rest of the pattern cannot start with a character of the
    class, only the longest run is left to try. *)
Lemma star_greedy_commit s :
  (forall c s', p c = true -> k (c :: s') = None) ->
  Re.star_greedy p s k = k (Str.drop_while p s).
Proof.
  intros Hk. induction s as [|c s IH]; simpl; [done|].
  destruct (p c) eqn:E; [|done].
  rewrite IH. destruct (k (Str.drop_while p s)); [done|]. by apply Hk.
Qed.

Lemma star_greedy_longest s r :
  k (Str.drop_while p s) = Some r -> Re.star_greedy p s k = Some r.
Proof.
  induction s as [|c s IH]; simpl; [done|].
  destruct (p c); [|done]. intros H. by rewrite (IH H).
Qed.

Lemma star_greedy_sound s r :
  Re.star_greedy p s k = Some r ->
  exists w s', s = w ++ s' /\ forallb p w = true /\ k s' = Some r.
Proof.
  induction s as [|c s IH]; simpl.
  - intros H. by exists [], [].
  - destruct (p c) eqn:E.
    + destruct (Re.star_greedy p s k) eqn:Es.
      * intros [= <-]. destruct (IH eq_refl) as (w & s' & -> & Hw & Hk).
        exists (c :: w), s'. simpl. by rewrite E, Hw.
      * intros H. by exists [], (c :: s).
    + intros H. by exists [], (c :: s).
Qed.
End Star.

Lemma at_end_space s : Re.at_end s = true -> forallb Str.is_space s = true.
Proof.
  destruct s as [|c [|d s]]; simpl; try done;
    by destruct c as [[] [] [] [] [] [] [] []].
Qed.

(** [\s*$] succeeds exactly on white space. *)
Lemma star_space_end {R} (s : list ascii) (r : R) :
  Re.star_greedy Str.is_space s (fun s' => if Re.at_end s' then Some r else None)
  = if forallb Str.is_space s then Some r else None.
Proof.
  destruct (forallb Str.is_space s) eqn:E.
  - apply star_greedy_longest. by rewrite drop_while_all.
  - destruct (Re.star_greedy _ _ _) eqn:Es; [|done].
    apply star_greedy_sound in Es as (w & s' & -> & Hw & Hk).
    rewrite forallb_app, Hw in E. simpl in E.
    destruct (Re.at_end s') eqn:Ee; [|done].
    apply at_end_space in Ee. congruence.
Qed.

Lemma group_digits_then_paren s g0 k :
  Re.rmatch (Re.Seq (Re.Group (Re.Plus Str.is_digit)) (Re.Chr ")")) s g0 k
  = match closed_digits s with
    | Some (ds, rest) => k rest ds
    | None => None
    end.
Proof.
  unfold closed_digits. simpl. destruct s as [|c s]; simpl; [done|].
  destruct (Str.is_digit c) eqn:Ec; [|done].
  rewrite star_greedy_commit.
  2:{ intros d s' Hd. destruct (Ascii.eqb_spec ")"%char d) as [<-|]; done. }
  pose proof (take_drop_while Str.is_digit s) as Hsplit.
  destruct (Str.drop_while Str.is_digit s) as [|d rest] eqn:Ed; [done|].
  destruct (Ascii.eqb_spec ")"%char d) as [<-|Hne].
  - f_equal. rewrite <- Hsplit at 1 2. rewrite length_app. simpl.
    replace (_ - _)%nat with (S (length (Str.take_while Str.is_digit s)))
      by lia.
    simpl. by rewrite take_app_length.
  - destruct d as [[] [] [] [] [] [] [] []]; try done.
Qed.

Lemma closed_digits_intro ds rest :
  ds <> [] -> forallb Str.is_digit ds = true ->
  closed_digits (ds ++ ")"%char :: rest) = Some (ds, rest).
Proof.
  intros Hne Hds. unfold closed_digits.
  rewrite take_while_app_stop, drop_while_app_all, drop_while_stop by done.
  by destruct ds.
Qed.

Lemma closed_digits_elim s ds rest :
  closed_digits s = Some (ds, rest) ->
  s = ds ++ ")"%char :: rest /\ ds <> [] /\ forallb Str.is_digit ds = true.
Proof.
  unfold closed_digits. intros H.
  pose proof (take_drop_while Str.is_digit s) as Hsplit.
  pose proof (take_while_all Str.is_digit s) as Hall.
  destruct (Str.take_while Str.is_digit s) as [|d ds'] eqn:Et; [done|].
  destruct (Str.drop_while Str.is_digit s) as [|c rest'] eqn:Ed; [done|].
  destruct (Ascii.eqb_spec c ")"%char) as [->|Hc].
  - by inversion H; subst.
  - exfalso. by destruct c as [[] [] [] [] [] [] [] []].
Qed.

Lemma rmatch_chr_cons c r2 s g k :
  Re.rmatch (Re.Seq (Re.Chr c) r2) (c :: s) g k = Re.rmatch r2 s g k.
Proof. cbn [Re.rmatch]. by rewrite Ascii.eqb_refl. Qed.

Lemma rmatch_chr_inv c r2 s g k res :
  Re.rmatch (Re.Seq (Re.Chr c) r2) s g k = Some res ->
  exists s', s = c :: s' /\ Re.rmatch r2 s' g k = Some res.
Proof.
  cbn [Re.rmatch]. destruct s as [|c' s']; [done|].
  destruct (Ascii.eqb_spec c c') as [<-|]; [|done]. by exists s'.
Qed.

Lemma rmatch_star p r2 s g k :
  Re.rmatch (Re.Seq (Re.Star p) r2) s g k
  = Re.star_greedy p s (fun s' => Re.rmatch r2 s' g k).
Proof. reflexivity. Qed.

Lemma rmatch_seq_assoc r1 r2 r3 s g k :
  Re.rmatch (Re.Seq r1 (Re.Seq r2 r3)) s g k
  = Re.rmatch (Re.Seq r1 r2) s g (fun s' g' => Re.rmatch r3 s' g' k).
Proof. reflexivity. Qed.

Lemma rmatch_space_end s g :
  Re.rmatch (Re.Seq (Re.Star Str.is_space) Re.Dollar) s g (fun _ g' => Some g')
  = if forallb Str.is_space s then Some g else None.
Proof. rewrite rmatch_star. cbn [Re.rmatch]. apply star_space_end. Qed.

(** An anchored match of the quotation marker. *)
Lemma match_marker_intro ds rest :
  ds <> [] -> forallb Str.is_digit ds = true ->
  Re.match_here quote_marker_re (Str.chars "(AT" ++ ds ++ ")"%char :: rest)
  = Some ds.
Proof.
  intros Hne Hds. unfold Re.match_here, quote_marker_re.
  change (Str.chars "(AT" ++ ds ++ ")"%char :: rest)
    with ("("%char :: "A"%char :: "T"%char :: ds ++ ")"%char :: rest).
  rewrite !rmatch_chr_cons.
  by rewrite group_digits_then_paren, closed_digits_intro.
Qed.

Lemma match_marker_elim s g :
  Re.match_here quote_marker_re s = Some g ->
  exists rest, s = Str.chars "(AT" ++ g ++ ")"%char :: rest
    /\ g <> [] /\ forallb Str.is_digit g = true.
Proof.
  unfold Re.match_here, quote_marker_re.
  intros (s1 & -> & (s2 & -> & (s3 & -> & H)%rmatch_chr_inv)%rmatch_chr_inv)
    %rmatch_chr_inv.
  rewrite group_digits_then_paren in H.
  destruct (closed_digits s3) as [[ds rest]|] eqn:Ec; [|done].
  injection H as <-. apply closed_digits_elim in Ec as (-> & ? & ?).
  by exists rest.
Qed.

(** An anchored match of the code-name suffix. *)
Lemma match_suffix_intro w1 ds w2 :
  forallb Str.is_space w1 = true ->
  ds <> [] -> forallb Str.is_digit ds = true ->
  forallb Str.is_space w2 = true ->
  Re.match_here code_suffix_re
    (w1 ++ Str.chars "(T" ++ ds ++ ")"%char :: w2) = Some ds.
Proof.
  intros Hw1 Hne Hds Hw2. unfold Re.match_here, code_suffix_re.
  rewrite rmatch_star. apply star_greedy_longest.
  rewrite drop_while_app_all by done.
  change (Str.chars "(T" ++ ds ++ ")"%char :: w2)
    with ("("%char :: "T"%char :: ds ++ ")"%char :: w2).
  rewrite drop_while_stop by done. rewrite !rmatch_chr_cons.
  rewrite rmatch_seq_assoc, group_digits_then_paren.
  rewrite closed_digits_intro by done.
  by rewrite rmatch_space_end, Hw2.
Qed.

Lemma match_suffix_elim s g :
  Re.match_here code_suffix_re s = Some g ->
  exists w1 w2, s = w1 ++ Str.chars "(T" ++ g ++ ")"%char :: w2
    /\ forallb Str.is_space w1 = true
    /\ g <> [] /\ forallb Str.is_digit g = true
    /\ forallb Str.is_space w2 = true.
Proof.
  unfold Re.match_here, code_suffix_re. rewrite rmatch_star.
  intros (w1 & s0 & -> & Hw1 & H)%star_greedy_sound.
  apply rmatch_chr_inv in H as (s1 & -> & H).
  apply rmatch_chr_inv in H as (s2 & -> & H).
  rewrite rmatch_seq_assoc, group_digits_then_paren in H.
  destruct (closed_digits s2) as [[ds rest]|] eqn:Ec; [|done].
  rewrite rmatch_space_end in H.
  destruct (forallb Str.is_space rest) eqn:Er; [|done].
  injection H as <-. apply closed_digits_elim in Ec as (-> & ? & ?).
  by exists w1, rest.
Qed.

Example search_marker_ex :
  Re.search quote_marker_re "Intro (AT12) and (AT3)" =
  Some (Re.MkMatch 6 (Str.chars "12")).
Proof. reflexivity. Qed.

Example search_suffix_ex :
  Re.search code_suffix_re "  Caching  (T7) " =
  Some (Re.MkMatch 9 (Str.chars "7")).
Proof. reflexivity. Qed.

(** [re.search] returns the leftmost position with an anchored match. *)
Section Search.
Variable r : Re.regex.

Lemma search_from_spec s pos m :
  Re.search_from r s pos = Some m ->
  exists i, (i <= length s)%nat
    /\ Re.m_start m = (pos + i)%nat
    /\ Re.match_here r (drop i s) = Some (Re.m_group1 m)
    /\ forall j, (j < i)%nat -> Re.match_here r (drop j s) = None.
Proof.
  revert pos. induction s as [|c s IH]; intros pos; simpl.
  - destruct (Re.match_here r []) eqn:E; [|done].
    intros [= <-]. exists 0%nat. simpl. split_and!; [lia|lia|done|lia].
  - destruct (Re.match_here r (c :: s)) eqn:E.
    + intros [= <-]. exists 0%nat. simpl. split_and!; [lia|lia|done|lia].
    + intros (i & Hi & Hs & Hm & Hlt)%IH. exists (S i). simpl.
      split_and!; [lia|lia|done|].
      intros [|j] Hj; simpl; [done|]. apply Hlt. lia.
Qed.

Lemma search_from_complete s pos i g :
  (i <= length s)%nat ->
  Re.match_here r (drop i s) = Some g ->
  is_Some (Re.search_from r s pos).
Proof.
  revert pos i. induction s as [|c s IH]; intros pos i Hi Hm; simpl.
  - rewrite drop_nil in Hm. by rewrite Hm.
  - destruct (Re.match_here r (c :: s)) eqn:E; [done|].
    destruct i as [|i]; simpl in *; [congruence|].
    apply (IH _ i); [lia|done].
Qed.
End Search.

(** ** Step 3: the marker of a quotation *)

Lemma marker_occurs_match s pre ds :
  marker_occurs s pre ds ->
  Re.match_here quote_marker_re (drop (length pre) s) = Some ds.
Proof.
  intros (Hne & Hds & post & ->). rewrite drop_app_length.
  by apply match_marker_intro.
Qed.

Lemma match_marker_occurs s i g :
  (i <= length s)%nat ->
  Re.match_here quote_marker_re (drop i s) = Some g ->
  marker_occurs s (take i s) g.
Proof.
  intros Hi (rest & Hs & Hne & Hg)%match_marker_elim.
  split_and!; [done..|]. exists rest. by rewrite <- Hs, take_drop.
Qed.

(** C10: when the name of a quotation holds several [(AT<digits>)] markers,
    the tactic extracted from it is the digits of the leftmost one; the
    later markers play no part. *)
Theorem marker_tactic_leftmost (name : string) (pre ds : list ascii) :
  marker_occurs (Str.chars name) pre ds ->
  (forall pre' ds', marker_occurs (Str.chars name) pre' ds' ->
                    (length pre <= length pre')%nat) ->
  marker_tactic name = Some (Str.of_chars ds)
  /\ forall q idx rest,
       enumerate_quotes idx (Q q name :: rest)
       = Quote q idx (Some (Str.of_chars ds)) :: enumerate_quotes (S idx) rest.
Proof.
  intros Hocc Hleft.
  assert (marker_tactic name = Some (Str.of_chars ds)) as Hm.
  { pose proof (marker_occurs_match _ _ _ Hocc) as Hhere.
    assert (length pre <= length (Str.chars name))%nat as Hlen.
    { destruct Hocc as (_ & _ & post & ->). rewrite length_app. lia. }
    unfold marker_tactic, Re.search.
    destruct (Re.search_from _ _ _) as [m|] eqn:Es.
    - apply search_from_spec in Es as (i & Hi & _ & Hmi & Hnone).
      pose proof (match_marker_occurs _ _ _ Hi Hmi) as Hocc'.
      apply Hleft in Hocc'. rewrite length_take in Hocc'.
      destruct (decide (length pre < i)%nat) as [Hlt|Hge].
      + rewrite (Hnone _ Hlt) in Hhere. done.
      + assert (i = length pre) as -> by lia. congruence.
    - destruct (search_from_complete quote_marker_re _ 0 _ _ Hlen Hhere)
        as [m Hm]. congruence. }
  split; [done|]. intros q idx rest. simpl. by rewrite Hm.
Qed.

Lemma marker_tactic_leftmost_witness :
  marker_tactic "see (AT12), not (AT3)" = Some "12"
  /\ forall q idx rest,
       enumerate_quotes idx (Q q "see (AT12), not (AT3)" :: rest)
       = Quote q idx (Some "12") :: enumerate_quotes (S idx) rest.
Proof.
  apply (marker_tactic_leftmost "see (AT12), not (AT3)"
           (Str.chars "see ") (Str.chars "12")).
  - split_and!; [done|reflexivity|]. by exists (Str.chars ", not (AT3)").
  - intros pre' ds' (_ & _ & post & Hs).
    destruct pre' as [|? [|? [|? [|? ?]]]]; simpl; first [lia | done].
Defined.

(** A marker that is found consists of digits, so it is never empty. *)
Lemma marker_tactic_truthy name t :
  marker_tactic name = Some t -> Str.truthy t = true.
Proof.
  unfold marker_tactic, Re.search.
  destruct (Re.search_from _ _ _) as [m|] eqn:Es; [|done].
  apply search_from_spec in Es as (i & _ & _ & Hm & _).
  apply match_marker_elim in Hm as (_ & _ & Hne & _).
  intros [= <-]. by destruct (Re.m_group1 m).
Qed.

(** ** Step 2: the suffix of a code name *)

Lemma search_suffix (raw : string) (pre ds ws : list ascii) :
  Str.chars raw = pre ++ Str.chars "(T" ++ ds ++ ")"%char :: ws ->
  ds <> [] -> forallb Str.is_digit ds = true ->
  forallb Str.is_space ws = true ->
  exists m w, Re.search code_suffix_re raw = Some m
    /\ Re.m_group1 m = ds
    /\ forallb Str.is_space w = true
    /\ take (Re.m_start m) (Str.chars raw) ++ w = pre.
Proof.
  intros Hraw Hne Hds Hws. unfold Re.search.
  assert (length pre <= length (Str.chars raw))%nat as Hlen.
  { rewrite Hraw, length_app. lia. }
  assert (Re.match_here code_suffix_re (drop (length pre) (Str.chars raw))
          = Some ds) as Hhere.
  { rewrite Hraw, drop_app_length.
    by apply (match_suffix_intro []). }
  destruct (search_from_complete code_suffix_re _ 0 _ _ Hlen Hhere)
    as [m Hm].
  exists m. rewrite Hm.
  apply search_from_spec in Hm as (i & Hi & Hst & Hmi & _).
  simpl in Hst. rewrite Hst. clear Hst Hhere.
  apply match_suffix_elim in Hmi as (w1 & w2 & Hd & Hw1 & Hg & Hgd & Hw2).
  exists w1.
  assert (rev (Str.chars raw) = rev (Str.chars raw)) as Hrev by done.
  rewrite <- (take_drop i (Str.chars raw)) in Hrev at 1.
  rewrite Hd, Hraw in Hrev.
  change (Str.chars "(T" ++ ?x) with ("("%char :: "T"%char :: x) in Hrev.
  rewrite !rev_app_distr in Hrev. simpl in Hrev.
  rewrite !rev_app_distr in Hrev. simpl in Hrev.
  rewrite <- !app_assoc in Hrev. simpl in Hrev.
  apply run_unique with (p := Str.is_space) in Hrev
    as (_ & _ & Hrev); [|by rewrite forallb_rev..|done|done].
  apply run_unique with (p := Str.is_digit) in Hrev
    as (Hg' & _ & Hrev); [|by rewrite forallb_rev..|done|done].
  apply (f_equal (@rev ascii)) in Hg'. rewrite !rev_involutive in Hg'.
  injection Hrev as Hrev.
  apply (f_equal (@rev ascii)) in Hrev.
  rewrite rev_app_distr, !rev_involutive in Hrev.
  split_and!; [done..|]. rewrite Hraw. exact Hrev.
Qed.

Lemma code_index_step_other ix c (cid : string) :
  c_id c <> cid ->
  code_to_name (code_index_step ix c) !! cid = code_to_name ix !! cid
  /\ code_to_tactic_override (code_index_step ix c) !! cid
     = code_to_tactic_override ix !! cid.
Proof.
  intros Hne. unfold code_index_step.
  destruct (Re.search code_suffix_re (c_name c)); simpl;
    by rewrite ?lookup_insert_ne.
Qed.

Lemma code_index_fold_other codes ix (cid : string) :
  cid ∉ map c_id codes ->
  code_to_name (fold_left code_index_step codes ix) !! cid
    = code_to_name ix !! cid
  /\ code_to_tactic_override (fold_left code_index_step codes ix) !! cid
     = code_to_tactic_override ix !! cid.
Proof.
  revert ix. induction codes as [|c codes IH]; intros ix Hnin; simpl; [done|].
  simpl in Hnin. apply not_elem_of_cons in Hnin as [Hne Hnin].
  destruct (IH (code_index_step ix c) Hnin) as [-> ->].
  by apply code_index_step_other.
Qed.

(** C3, as the code has it: for a code definition whose raw name ends, white
    space apart, in [(T<digits>)], the index records the digits as the tactic
    override of the code, and as its display name the text before the suffix
    with the white space at both of its ends removed. *)
Theorem code_suffix_override (before after : list code_el) (c : code_el)
    (pre ds ws : list ascii) :
  Str.chars (c_name c) = pre ++ Str.chars "(T" ++ ds ++ ")"%char :: ws ->
  ds <> [] -> forallb Str.is_digit ds = true ->
  forallb Str.is_space ws = true ->
  c_id c ∉ map c_id after ->
  let ix := build_code_index (before ++ c :: after) in
  code_to_tactic_override ix !! c_id c = Some (Str.of_chars ds)
  /\ code_to_name ix !! c_id c = Some (Str.of_chars (Str.strip pre)).
Proof.
  intros Hraw Hne Hds Hws Hlast ix. subst ix. unfold build_code_index.
  rewrite fold_left_app. simpl.
  destruct (code_index_fold_other after
              (code_index_step
                 (fold_left code_index_step before (CodeIndex ∅ ∅)) c)
              (c_id c) Hlast) as [-> ->].
  destruct (search_suffix _ _ _ _ Hraw Hne Hds Hws)
    as (m & w & Hs & Hg & Hw & Hpre).
  unfold code_index_step. rewrite Hs. simpl.
  rewrite !lookup_insert_eq, Hg. split; [done|].
  by rewrite <- Hpre, strip_app_space.
Qed.

Lemma code_suffix_override_witness :
  let ix := build_code_index
              [Code "c1" "Old (T1)"; Code "c1" "  Use a cache  (T7) ";
               Code "c2" "Pool"] in
  code_to_tactic_override ix !! "c1" = Some "7"
  /\ code_to_name ix !! "c1" = Some "Use a cache".
Proof.
  apply (code_suffix_override [Code "c1" "Old (T1)"] [Code "c2" "Pool"]
           (Code "c1" "  Use a cache  (T7) ")
           (Str.chars "  Use a cache  ") (Str.chars "7") (Str.chars " "));
    [reflexivity | done | reflexivity | reflexivity | ].
  simpl. apply not_elem_of_cons. split; [done | apply not_elem_of_nil].
Defined.

(** C3, as stated, fails on a raw name that starts with white space: the
    code removes it from the display name. *)
Lemma code_name_leading_space_counterexample :
  code_to_tactic_override (build_code_index [Code "c" " A (T7)"]) !! "c"
    = Some "7"
  /\ code_to_name (build_code_index [Code "c" " A (T7)"]) !! "c" = Some "A"
  /\ display_name_spec " A (T7)" = " A"
  /\ String.eqb "A" (display_name_spec " A (T7)") = false.
Proof. by vm_compute. Qed.

(** ** [sorted] *)

Lemma StronglySorted_weaken {A} (R R' : A -> A -> Prop) l :
  (forall a b, R a b -> R' a b) ->
  StronglySorted R l -> StronglySorted R' l.
Proof.
  intros HR. induction 1 as [|x l Hl IH Hx]; constructor; [done|].
  eapply Forall_impl; [exact Hx | auto].
Qed.

Section SortedFacts.
Context {A : Type} (leb : A -> A -> bool).
Hypothesis leb_total : forall a b, leb a b = true \/ leb b a = true.
Hypothesis leb_trans :
forall a b c, leb a b = true -> leb b c = true -> leb a c = true.

Lemma insert_sorted_perm x l : insert_sorted leb x l ≡ₚ x :: l.
Proof.
induction l as [|y l IH]; simpl; [done|].
destruct (leb x y); [done|]. rewrite IH. apply perm_swap.
Qed.

Lemma sorted_perm l : sorted leb l ≡ₚ l.
Proof.
induction l as [|x l IH]; simpl; [done|].
by rewrite insert_sorted_perm, IH.
Qed.

Lemma insert_sorted_ordered x l :
StronglySorted (fun a b => leb a b = true) l ->
StronglySorted (fun a b => leb a b = true) (insert_sorted leb x l).
Proof.
induction 1 as [|y l Hl IH Hy]; simpl.
- repeat constructor.
- destruct (leb x y) eqn:E.
  + constructor; [by constructor|]. constructor; [done|].
    eapply Forall_impl; [exact Hy|]. intros z Hz. by eapply leb_trans.
  + constructor; [done|]. rewrite insert_sorted_perm.
    constructor; [|done]. destruct (leb_total x y); congruence.
Qed.

Lemma sorted_ordered l :
StronglySorted (fun a b => leb a b = true) (sorted leb l).
Proof.
induction l as [|x l IH]; simpl; [constructor|].
by apply insert_sorted_ordered.
Qed.
End SortedFacts.

(** ** Step 3: the quotation index and [find_tactic_for] *)

Lemma order_leb_total a b : order_leb a b = true \/ order_leb b a = true.
Proof. unfold order_leb. rewrite !Nat.leb_le. lia. Qed.

Lemma order_leb_trans a b c :
  order_leb a b = true -> order_leb b c = true -> order_leb a c = true.
Proof. unfold order_leb. rewrite !Nat.leb_le. lia. Qed.

Lemma enumerate_quotes_tactic idx els x :
  x ∈ enumerate_quotes idx els ->
  exists el, el ∈ els /\ tactic x = marker_tactic (q_name el).
Proof.
  revert idx. induction els as [|el els IH]; intros idx; simpl.
  - by intros ?%elem_of_nil.
  - intros [->|Hx]%elem_of_cons.
    + exists el. split; [apply list_elem_of_here | done].
    + destruct (IH _ Hx) as (el' & ? & ?). exists el'.
      split; [by apply list_elem_of_further | done].
Qed.

(** In the quotation list, carrying a marker and passing the test
    [if q["tactic"]] are the same. *)
Lemma has_tactic_marker idx els x :
  x ∈ enumerate_quotes idx els ->
  has_tactic x = true <-> is_Some (tactic x).
Proof.
  intros (el & _ & Ht)%enumerate_quotes_tactic. unfold has_tactic.
  destruct (tactic x) as [t|] eqn:E.
  - symmetry in Ht. apply marker_tactic_truthy in Ht. by rewrite Ht.
  - split; [done|]. by intros [? ?].
Qed.

Lemma title_quotes_elem qs x :
  x ∈ title_quotes qs <-> x ∈ qs /\ has_tactic x = true.
Proof.
  unfold title_quotes. rewrite sorted_perm.
  rewrite !list_elem_of_In, filter_In. done.
Qed.

Lemma title_quotes_ordered qs :
  StronglySorted (fun a b => (order a <= order b)%nat) (title_quotes qs).
Proof.
  eapply StronglySorted_weaken;
    [|apply (sorted_ordered order_leb order_leb_total order_leb_trans)].
  intros a b. unfold order_leb. by rewrite Nat.leb_le.
Qed.

(** The backward scan over an ascending list stops at the last entry whose
    order does not exceed [n]. *)
Lemma scan_titles_rev l n :
  StronglySorted (fun a b => (order a <= order b)%nat) l ->
  (exists tq, tq ∈ l /\ (order tq <= n)%nat
     /\ scan_titles (rev l) n = tactic tq
     /\ forall tq', tq' ∈ l -> (order tq' <= n)%nat ->
                    (order tq' <= order tq)%nat)
  \/ (scan_titles (rev l) n = None
      /\ forall tq, tq ∈ l -> (n < order tq)%nat).
Proof.
  induction l as [|x l IH] using rev_ind; intros Hs.
  - right. split; [done|]. by intros tq ?%elem_of_nil.
  - rewrite rev_app_distr. simpl.
    apply StronglySorted_app in Hs as (Hlt & Hl & _).
    assert (forall y, y ∈ l -> (order y <= order x)%nat) as Hmax.
    { intros y Hy. apply Hlt; [done|]. apply list_elem_of_here. }
    destruct (Nat.leb_spec (order x) n) as [Hle|Hgt].
    + left. exists x.
      split_and!; [apply elem_of_app; right; apply list_elem_of_here|done..|].
      intros tq' [Hin| ->%list_elem_of_singleton]%elem_of_app _; [auto|lia].
    + destruct (IH Hl) as [(tq & Hin & Hle & Hscan & Hbest)|[Hnone Hall]].
      * left. exists tq. split_and!; [apply elem_of_app; by left|done..|].
        intros tq' [Hin'| ->%list_elem_of_singleton]%elem_of_app Hle';
          [auto|lia].
      * right. split; [done|].
        intros tq [Hin| ->%list_elem_of_singleton]%elem_of_app; [auto|lia].
Qed.

(** C1: for a quotation id of the index, [find_tactic_for] gives the tactic
    of the marker-carrying quotation with the greatest order not above the
    order of the target, and nothing when every marker-carrying quotation
    comes later.  With markers (AT2) at order 1 and (AT5) at order 3 among
    five quotations, the orders 0..4 resolve to nothing, 2, 2, 5, 5. *)
Theorem find_tactic_for_nearest_marker :
  (forall (doc : document) (q : string) (rec : quote),
     quotes_by_id (quotes doc) !! q = Some rec ->
     (exists tq t,
        find_tactic_for (quotes doc) q = Ok (Some t)
        /\ tq ∈ quotes doc /\ tactic tq = Some t
        /\ (order tq <= order rec)%nat
        /\ forall tq', tq' ∈ quotes doc -> is_Some (tactic tq') ->
             (order tq' <= order rec)%nat -> (order tq' <= order tq)%nat)
     \/ (find_tactic_for (quotes doc) q = Ok None
         /\ forall tq, tq ∈ quotes doc -> is_Some (tactic tq) ->
              (order rec < order tq)%nat))
  /\ (let qs := enumerate_quotes 0
                  [Q "qa" "opening"; Q "qb" "Caching (AT2)"; Q "qc" "text";
                   Q "qd" "Pooling (AT5)"; Q "qe" "more text"] in
      map order qs = [0; 1; 2; 3; 4]%nat
      /\ map (find_tactic_for qs) ["qa"; "qb"; "qc"; "qd"; "qe"]
         = [Ok None; Ok (Some "2"); Ok (Some "2"); Ok (Some "5");
            Ok (Some "5")]).
Proof.
  split; [|by vm_compute].
  intros doc q rec Hrec. unfold find_tactic_for. rewrite Hrec.
  destruct (scan_titles_rev (title_quotes (quotes doc)) (order rec)
              (title_quotes_ordered _))
    as [(tq & Hin & Hle & Hscan & Hbest)|[Hnone Hall]].
  - left. apply title_quotes_elem in Hin as [Hin Hhas].
    pose proof Hhas as Hsome.
    apply (has_tactic_marker 0 (doc_quotations doc)) in Hsome as [t Ht];
      [|done].
    exists tq, t. rewrite Hscan, Ht. split_and!; [done..|].
    intros tq' Hin' Hsome' Hle'. apply Hbest; [|done].
    apply title_quotes_elem. split; [done|].
    by apply (has_tactic_marker 0 (doc_quotations doc)).
  - right. rewrite Hnone. split; [done|].
    intros tq Hin Hsome. apply Hall, title_quotes_elem. split; [done|].
    by apply (has_tactic_marker 0 (doc_quotations doc)).
Qed.

Lemma find_tactic_for_nearest_marker_witness :
  quotes_by_id (quotes paper_example) !! "q2" = Some (Quote "q2" 2 None)
  /\ ((exists tq t,
        find_tactic_for (quotes paper_example) "q2" = Ok (Some t)
        /\ tq ∈ quotes paper_example /\ tactic tq = Some t
        /\ (order tq <= 2)%nat
        /\ forall tq', tq' ∈ quotes paper_example -> is_Some (tactic tq') ->
             (order tq' <= 2)%nat -> (order tq' <= order tq)%nat)
     \/ (find_tactic_for (quotes paper_example) "q2" = Ok None
         /\ forall tq, tq ∈ quotes paper_example -> is_Some (tactic tq) ->
              (2 < order tq)%nat)).
Proof.
  split; [by vm_compute|].
  apply (proj1 find_tactic_for_nearest_marker paper_example "q2"
           (Quote "q2" 2 None)).
  by vm_compute.
Defined.

(** ** Step 5: the aggregator *)

(** Every override in the index is a run of digits, so it is never empty. *)
Lemma override_truthy codes (cid t : string) :
  code_to_tactic_override (build_code_index codes) !! cid = Some t ->
  Str.truthy t = true.
Proof.
  unfold build_code_index.
  assert (forall ix,
    (forall c v, code_to_tactic_override ix !! c = Some v ->
                 Str.truthy v = true) ->
    forall c v,
      code_to_tactic_override (fold_left code_index_step codes ix) !! c
        = Some v -> Str.truthy v = true) as Hfold.
  { induction codes as [|el codes IH]; intros ix Hix; simpl; [done|].
    apply IH. intros c v. unfold code_index_step, Re.search.
    destruct (Re.search_from _ _ _) as [m|] eqn:Es; simpl; [|by apply Hix].
    destruct (decide (c_id el = c)) as [->|Hne].
    - rewrite lookup_insert_eq. intros [= <-].
      apply search_from_spec in Es as (i & _ & _ & Hm & _).
      apply match_suffix_elim in Hm as (_ & _ & _ & _ & Hne & _).
      by destruct (Re.m_group1 m).
    - rewrite lookup_insert_ne by done. apply Hix. }
  apply Hfold. intros c v. simpl. by rewrite lookup_empty.
Qed.

Lemma dict_get_set_eq {V} (k : string) (v : V) d :
  dict_get k (dict_set k v d) = Some v.
Proof.
  induction d as [|[k' v'] d IH]; simpl.
  - by rewrite decide_True.
  - destruct (decide (k' = k)) as [->|Hne]; simpl.
    + by rewrite decide_True.
    + by rewrite decide_False.
Qed.

Lemma dict_get_set_ne {V} (k k2 : string) (v : V) d :
  k <> k2 -> dict_get k2 (dict_set k v d) = dict_get k2 d.
Proof.
  intros Hne. induction d as [|[k' v'] d IH]; simpl.
  - by rewrite decide_False.
  - destruct (decide (k' = k)) as [->|Hne']; simpl.
    + by rewrite !decide_False.
    + destruct (decide (k' = k2)); done.
Qed.

Lemma add_code_elem tac cid tcs :
  exists cids, dict_get tac (add_code tac cid tcs) = Some cids /\ cid ∈ cids.
Proof.
  unfold add_code. destruct (dict_get tac tcs) as [cids|].
  - exists ({[cid]} ∪ cids). rewrite dict_get_set_eq. set_solver.
  - exists {[cid]}. rewrite dict_get_set_eq. set_solver.
Qed.

(** C4: when the code of a coding link has a tactic override, the effective
    tactic is that override, whatever the quotation of the link would
    resolve to (a tactic, none, or a failed lookup); the code is filed under
    the override. *)
Theorem override_takes_precedence (codes : list code_el) (qs : list quote)
    (tcs : list (string * gset string)) (link : ilink_el) (t : string) :
  code_to_tactic_override (build_code_index codes) !! l_obj link = Some t ->
  effective_tactic (build_code_index codes) qs link = Ok (Some t)
  /\ link_step (build_code_index codes) qs tcs link
     = Ok (add_code t (l_obj link) tcs)
  /\ exists cids,
       dict_get t (add_code t (l_obj link) tcs) = Some cids
       /\ l_obj link ∈ cids.
Proof.
  intros Hov. pose proof (override_truthy _ _ _ Hov) as Ht.
  assert (effective_tactic (build_code_index codes) qs link = Ok (Some t))
    as Heff.
  { unfold effective_tactic. by rewrite Hov, Ht. }
  split_and!; [done| |apply add_code_elem].
  unfold link_step. rewrite Heff. simpl. by rewrite Ht.
Qed.

Lemma override_takes_precedence_witness :
  code_to_tactic_override (build_code_index (doc_codes paper_example)) !! "c1"
    = Some "1"
  /\ find_tactic_for (quotes paper_example) "q4" = Ok (Some "10")
  /\ effective_tactic (build_code_index (doc_codes paper_example))
       (quotes paper_example) (ILink "c1" "q4") = Ok (Some "1").
Proof.
  split; [by vm_compute|]. split; [by vm_compute|].
  apply (proj1 (override_takes_precedence (doc_codes paper_example)
                  (quotes paper_example) [] (ILink "c1" "q4") "1"
                  ltac:(by vm_compute))).
Defined.

Lemma fold_result_app {A S} (f : S -> A -> result S) acc l1 l2 :
  fold_result f acc (l1 ++ l2)
  = (let* acc' := fold_result f acc l1 in fold_result f acc' l2).
Proof.
  revert acc. induction l1 as [|a l1 IH]; intros acc; simpl; [done|].
  destruct (f acc a); simpl; [apply IH | done].
Qed.

(** C5, as the code has it: a coding link whose code has no tactic override
    and whose [qRef] is not in the quotation index fails with a [KeyError]
    for that id, and so does the loop over any list of links up to and
    including it, unless an earlier link has failed already. *)
Theorem unknown_quotation_raises (ix : code_index) (qs : list quote)
    (tcs : list (string * gset string)) (link : ilink_el) :
  code_to_tactic_override ix !! l_obj link = None ->
  quotes_by_id qs !! l_qRef link = None ->
  link_step ix qs tcs link = Raise (KeyError (l_qRef link))
  /\ forall before after,
       exists e, tactic_codes ix qs (before ++ link :: after) = Raise e.
Proof.
  intros Hov Hq.
  assert (forall acc, link_step ix qs acc link = Raise (KeyError (l_qRef link)))
    as Hstep.
  { intros acc. unfold link_step, effective_tactic, find_tactic_for.
    by rewrite Hov, Hq. }
  split; [done|]. intros before after. unfold tactic_codes.
  rewrite fold_result_app.
  destruct (fold_result (link_step ix qs) [] before) as [acc|e]; simpl.
  - rewrite Hstep. simpl. by eexists.
  - by eexists.
Qed.

Lemma unknown_quotation_raises_witness :
  code_to_tactic_override (build_code_index (doc_codes paper_example)) !! "c2"
    = None
  /\ quotes_by_id (quotes paper_example) !! "nowhere" = None
  /\ link_step (build_code_index (doc_codes paper_example))
       (quotes paper_example) [] (ILink "c2" "nowhere")
     = Raise (KeyError "nowhere").
Proof.
  split; [by vm_compute|]. split; [by vm_compute|].
  apply (proj1 (unknown_quotation_raises
                  (build_code_index (doc_codes paper_example))
                  (quotes paper_example) [] (ILink "c2" "nowhere")
                  ltac:(by vm_compute) ltac:(by vm_compute))).
Defined.

(** C5, as stated, fails when the code of the link has an override: the
    quotation is then never looked up, and the link is filed without an
    error. *)
Lemma unknown_quotation_override_counterexample :
  quotes_by_id (quotes paper_example) !! "nowhere" = None
  /\ link_step (build_code_index (doc_codes paper_example))
       (quotes paper_example) [] (ILink "c3" "nowhere")
     = Ok [("10", {["c3"]})]
  /\ tactic_codes (build_code_index (doc_codes paper_example))
       (quotes paper_example) (doc_codings paper_example)
     = Ok [("1", {["c1"]}); ("10", {["c2"; "c3"]}); ("9", {["c4"; "c2"]})].
Proof. split_and!; vm_compute; reflexivity. Qed.

(** C9: a coding link whose code has no override and whose quotation
    resolves to no tactic leaves the tactic-to-codes mapping as it was;
    the run goes on as if the link were not there. *)
Theorem unresolved_link_discarded (ix : code_index) (qs : list quote)
    (tcs : list (string * gset string)) (link : ilink_el) :
  code_to_tactic_override ix !! l_obj link = None ->
  find_tactic_for qs (l_qRef link) = Ok None ->
  link_step ix qs tcs link = Ok tcs
  /\ forall before after,
       tactic_codes ix qs (before ++ link :: after)
       = tactic_codes ix qs (before ++ after).
Proof.
  intros Hov Hq.
  assert (forall acc, link_step ix qs acc link = Ok acc) as Hstep.
  { intros acc. unfold link_step, effective_tactic. by rewrite Hov, Hq. }
  split; [done|]. intros before after. unfold tactic_codes.
  rewrite !fold_result_app.
  destruct (fold_result (link_step ix qs) [] before) as [acc|e]; simpl;
    [|done].
  by rewrite Hstep.
Qed.

Lemma unresolved_link_discarded_witness :
  code_to_tactic_override (build_code_index (doc_codes paper_example)) !! "c4"
    = None
  /\ find_tactic_for (quotes paper_example) "q0" = Ok None
  /\ link_step (build_code_index (doc_codes paper_example))
       (quotes paper_example) [("9", {["c2"]})] (ILink "c4" "q0")
     = Ok [("9", {["c2"]})].
Proof.
  split; [by vm_compute|]. split; [by vm_compute|].
  apply (proj1 (unresolved_link_discarded
                  (build_code_index (doc_codes paper_example))
                  (quotes paper_example) [("9", {["c2"]})] (ILink "c4" "q0")
                  ltac:(by vm_compute) ltac:(by vm_compute))).
Defined.

(** ** Step 6: the cells *)

Lemma string_leb_total a b : String.leb a b = true \/ String.leb b a = true.
Proof. apply String.leb_total. Qed.

Lemma string_leb_trans a b c :
  String.leb a b = true -> String.leb b c = true -> String.leb a c = true.
Proof.
  intros H1 H2. apply Is_true_true.
  apply (transitivity (R := String.le) (y := b)); by apply Is_true_true.
Qed.

(** [hits]: the common ids, each once, in ascending order. *)
Lemma hits_spec cids fam_code_ids :
  StronglySorted (fun a b => String.leb a b = true) (hits cids fam_code_ids)
  /\ NoDup (hits cids fam_code_ids)
  /\ forall c, c ∈ hits cids fam_code_ids <-> c ∈ cids /\ c ∈ fam_code_ids.
Proof.
  unfold hits. split_and!.
  - apply sorted_ordered; [apply string_leb_total | apply string_leb_trans].
  - rewrite sorted_perm. apply NoDup_elements.
  - intros c. rewrite sorted_perm, elem_of_elements, elem_of_intersection.
    by rewrite elem_of_list_to_set.
Qed.

Lemma map_result_ok {A B} (f : A -> result B) l bs :
  map_result f l = Ok bs -> Forall2 (fun a b => f a = Ok b) l bs.
Proof.
  revert bs. induction l as [|a l IH]; intros bs; simpl.
  - intros [= <-]. constructor.
  - destruct (f a) as [b|] eqn:E; simpl; [|done].
    destruct (map_result f l) as [bs'|]; simpl; [|done].
    intros [= <-]. constructor; [done | by apply IH].
Qed.

Lemma cell_ok names cids fam_code_ids s :
  cell names cids fam_code_ids = Ok s ->
  exists ns,
    Forall2 (fun c n => names !! c = Some n) (hits cids fam_code_ids) ns
    /\ s = Str.join "; " ns.
Proof.
  unfold cell. destruct (hits cids fam_code_ids) as [|h hs] eqn:Eh.
  - intros [= <-]. exists []. split; [constructor | done].
  - destruct (map_result (name_of names) (h :: hs)) as [ns|] eqn:Em;
      simpl; [|done].
    intros [= <-]. exists ns. split; [|done].
    apply map_result_ok in Em.
    eapply Forall2_impl; [exact Em|]. intros c n. unfold name_of.
    destruct (names !! c); [by intros [= ->] | done].
Qed.

Lemma row_fold_other names cids fams row0 row (k : string) :
  fold_result (row_step names cids) row0 fams = Ok row ->
  k ∉ map (fun f => f.2.1) fams ->
  dict_get k row = dict_get k row0.
Proof.
  revert row0. induction fams as [|[fid [fname members]] fams IH];
    intros row0; simpl.
  - by intros [= <-].
  - destruct (cell names cids members) as [s|]; simpl; [|done].
    intros Hf [Hne Hnin]%not_elem_of_cons. simpl in Hne.
    rewrite (IH _ Hf Hnin). by apply dict_get_set_ne.
Qed.

Lemma build_row_cell names fams cids row f1 fid fname members f2 :
  build_row names fams cids = Ok row ->
  fams = f1 ++ (fid, (fname, members)) :: f2 ->
  fname ∉ map (fun f => f.2.1) f2 ->
  exists s, cell names cids members = Ok s /\ dict_get fname row = Some s.
Proof.
  unfold build_row. intros Hrow -> Hlast.
  rewrite fold_result_app in Hrow.
  destruct (fold_result (row_step names cids) [] f1) as [row1|]; simpl in *;
    [|done].
  destruct (cell names cids members) as [s|]; simpl in *; [|done].
  exists s. split; [done|].
  rewrite (row_fold_other _ _ _ _ _ _ Hrow Hlast). apply dict_get_set_eq.
Qed.

Lemma output_fold_other names fams tcs out0 out (k : string) :
  fold_result (output_step names fams) out0 tcs = Ok out ->
  k ∉ map fst tcs ->
  dict_get k out = dict_get k out0.
Proof.
  revert out0. induction tcs as [|[tac cids] tcs IH]; intros out0; simpl.
  - by intros [= <-].
  - unfold output_step at 1. simpl.
    destruct (build_row names fams cids) as [row|]; simpl; [|done].
    intros Hf [Hne Hnin]%not_elem_of_cons.
    rewrite (IH _ Hf Hnin). by apply dict_get_set_ne.
Qed.

Lemma build_output_row names fams tcs out t1 tac cids t2 :
  build_output names fams tcs = Ok out ->
  tcs = t1 ++ (tac, cids) :: t2 ->
  tac ∉ map fst t2 ->
  exists row, build_row names fams cids = Ok row
    /\ dict_get tac out = Some row.
Proof.
  unfold build_output. intros Hout -> Hlast.
  rewrite fold_result_app in Hout.
  destruct (fold_result (output_step names fams) [] t1) as [out1|];
    simpl in *; [|done].
  unfold output_step at 1 in Hout. simpl in Hout.
  destruct (build_row names fams cids) as [row|]; simpl in *; [|done].
  exists row. split; [done|].
  rewrite (output_fold_other _ _ _ _ _ _ Hout Hlast). apply dict_get_set_eq.
Qed.

(** The keys of a dictionary stay distinct. *)
Lemma dict_set_keys {V} (k : string) (v : V) d :
  map fst (dict_set k v d)
  = if decide (k ∈ map fst d) then map fst d else map fst d ++ [k].
Proof.
  induction d as [|[k' v'] d IH].
  - cbn [dict_set map fst].
    destruct (decide (k ∈ [])) as [Hin|_]; [|reflexivity].
    by apply elem_of_nil in Hin.
  - cbn [dict_set map fst]. destruct (decide (k' = k)) as [->|Hne].
    + cbn [map fst].
      destruct (decide (k ∈ k :: map fst d)) as [_|Hnin]; [reflexivity|].
      exfalso. apply Hnin, list_elem_of_here.
    + cbn [map fst]. rewrite IH.
      destruct (decide (k ∈ map fst d)) as [Hin|Hnin];
        destruct (decide (k ∈ k' :: map fst d)) as [Hin'|Hnin'];
        try reflexivity.
      * exfalso. by apply Hnin', list_elem_of_further.
      * apply elem_of_cons in Hin' as [->|?]; done.
Qed.

Lemma dict_set_NoDup {V} (k : string) (v : V) d :
  NoDup (map fst d) -> NoDup (map fst (dict_set k v d)).
Proof.
  intros Hd. rewrite dict_set_keys. destruct (decide _) as [|Hnin]; [done|].
  apply NoDup_app. split_and!; [done| |apply NoDup_singleton].
  intros x Hx ->%list_elem_of_singleton. done.
Qed.

Lemma tactic_codes_NoDup ix qs links tcs :
  tactic_codes ix qs links = Ok tcs -> NoDup (map fst tcs).
Proof.
  unfold tactic_codes.
  assert (forall acc, NoDup (map fst acc) ->
            fold_result (link_step ix qs) acc links = Ok tcs ->
            NoDup (map fst tcs)) as Hfold.
  { induction links as [|l links IH]; intros acc Hacc; simpl.
    - by intros [= <-].
    - destruct (link_step ix qs acc l) as [acc'|] eqn:El; simpl; [|done].
      apply IH. revert El. unfold link_step.
      destruct (effective_tactic ix qs l) as [[t|]|]; simpl;
        [|by intros [= <-]|done].
      destruct (Str.truthy t); intros [= <-]; [|done].
      unfold add_code. destruct (dict_get t acc); by apply dict_set_NoDup. }
  apply Hfold. constructor.
Qed.

(** C2, as the code has it: in the row of a tactic, the cell of a family is
    the display names of the codes common to the code set of the tactic and
    the members of the family, taken in ascending order of the code ids, and
    joined with ["; "]. *)
Theorem cell_joins_names_in_id_order (doc : document)
    (tcs : list (string * gset string))
    (out : list (string * list (string * string)))
    (tac : string) (cids : gset string)
    (f1 f2 : list (string * (string * list string)))
    (fid fname : string) (members : list string) :
  tactic_codes (build_code_index (doc_codes doc)) (quotes doc)
    (doc_codings doc) = Ok tcs ->
  build_output (code_to_name (build_code_index (doc_codes doc)))
    (families doc) tcs = Ok out ->
  (tac, cids) ∈ tcs ->
  families doc = f1 ++ (fid, (fname, members)) :: f2 ->
  fname ∉ map (fun f => f.2.1) f2 ->
  exists row hs ns,
    dict_get tac out = Some row
    /\ dict_get fname row = Some (Str.join "; " ns)
    /\ StronglySorted (fun a b => String.leb a b = true) hs
    /\ NoDup hs
    /\ (forall c, c ∈ hs <-> c ∈ cids /\ c ∈ members)
    /\ Forall2 (fun c n =>
                  code_to_name (build_code_index (doc_codes doc)) !! c = Some n)
               hs ns.
Proof.
  intros Htcs Hout Hin Hfams Hlast.
  apply tactic_codes_NoDup in Htcs as Hnd.
  apply list_elem_of_split in Hin as (t1 & t2 & ->).
  assert (tac ∉ map fst t2) as Hlast'.
  { rewrite map_app in Hnd. simpl in Hnd.
    apply NoDup_app in Hnd as (_ & _ & Hnd).
    by apply NoDup_cons in Hnd as [? _]. }
  destruct (build_output_row _ _ _ _ _ _ _ _ Hout eq_refl Hlast')
    as (row & Hrow & Hget).
  destruct (build_row_cell _ _ _ _ _ _ _ _ _ Hrow Hfams Hlast)
    as (s & Hcell & Hget').
  apply cell_ok in Hcell as (ns & Hns & ->).
  destruct (hits_spec cids members) as (Hs & Hn & Hm).
  by exists row, (hits cids members), ns.
Qed.

Lemma cell_joins_names_in_id_order_witness :
  exists row hs ns,
    dict_get "9"
      [("1", [("1. Title", "Zeta"); ("5. Context", ""); ("Unlisted", "Zeta")]);
       ("10", [("1. Title", "Alpha"); ("5. Context", "Alpha; Cache");
               ("Unlisted", "")]);
       ("9", [("1. Title", "Alpha"); ("5. Context", "Alpha; Pool");
              ("Unlisted", "")])] = Some row
    /\ dict_get "5. Context" row = Some (Str.join "; " ns)
    /\ StronglySorted (fun a b => String.leb a b = true) hs
    /\ NoDup hs
    /\ (forall c, c ∈ hs <-> c ∈ ({["c4"; "c2"]} : gset string)
                            /\ c ∈ ["c3"; "c4"; "c2"])
    /\ Forall2 (fun c n =>
                  code_to_name (build_code_index (doc_codes paper_example))
                    !! c = Some n)
               hs ns.
Proof.
  apply (cell_joins_names_in_id_order paper_example
           [("1", {["c1"]}); ("10", {["c2"; "c3"]}); ("9", {["c4"; "c2"]})]
           _ "9" {["c4"; "c2"]}
           [("f1", ("1. Title", ["c1"; "c2"]))]
           [("f3", ("Unlisted", ["c1"]))]
           "f2" "5. Context" ["c3"; "c4"; "c2"]).
  - vm_compute. reflexivity.
  - vm_compute. reflexivity.
  - apply list_elem_of_In. vm_compute. right. right. left. reflexivity.
  - vm_compute. reflexivity.
  - simpl. apply not_elem_of_cons. split; [done | apply not_elem_of_nil].
Defined.

(** C2, as stated, fails when the order of the code ids and the order of
    the display names differ: the names come out in the order of the ids. *)
Lemma cell_display_name_order_counterexample :
  run FromColumns unsorted_names_example
    = Ok (DataFrame cols
            [("1", [Some "Zeta; Alpha"; None; None; None; None; None; None;
                    None; None; None; None; None])])
  /\ run FromKeys unsorted_names_example
    = Ok (DataFrame cols
            [("1", [Some "Zeta; Alpha"; None; None; None; None; None; None;
                    None; None; None; None; None])])
  /\ cell (code_to_name (build_code_index (doc_codes unsorted_names_example)))
       {["c1"; "c2"]} ["c1"; "c2"] = Ok "Zeta; Alpha"
  /\ cell_by_display_name
       (code_to_name (build_code_index (doc_codes unsorted_names_example)))
       {["c1"; "c2"]} ["c1"; "c2"] = Ok "Alpha; Zeta".
Proof. split_and!; vm_compute; reflexivity. Qed.

(** ** Step 7: the twelve columns *)

Lemma dict_set_elem {V} (k : string) (v : V) d x :
  x ∈ dict_set k v d -> x = (k, v) \/ x ∈ d.
Proof.
  induction d as [|[k' v'] d IH]; simpl.
  - intros ->%list_elem_of_singleton. by left.
  - destruct (decide (k' = k)) as [->|Hne].
    + intros [->|Hx]%elem_of_cons; [by left|]. right.
      by apply list_elem_of_further.
    + intros [->|Hx]%elem_of_cons; [right; apply list_elem_of_here|].
      destruct (IH Hx) as [->|?]; [by left|]. right.
      by apply list_elem_of_further.
Qed.

Lemma dict_of_elem {V} (kvs : list (string * V)) x :
  x ∈ dict_of kvs -> x ∈ kvs.
Proof.
  unfold dict_of.
  assert (forall acc, x ∈ fold_left (fun d kv => dict_set kv.1 kv.2 d) kvs acc ->
                      x ∈ acc \/ x ∈ kvs) as Hfold.
  { induction kvs as [|[k v] kvs IH]; intros acc; simpl; [by left|].
    intros [[->|Hx]%dict_set_elem|Hx]%IH.
    - right. apply list_elem_of_here.
    - by left.
    - right. by apply list_elem_of_further. }
  intros [Hx|Hx]%Hfold; [|done]. by apply elem_of_nil in Hx.
Qed.

Lemma families_names doc fam :
  fam ∈ families doc -> fam.2.1 ∈ map cf_name (doc_families doc).
Proof.
  unfold families. intros Hfam%dict_of_elem.
  apply list_elem_of_fmap in Hfam as (cf & -> & Hcf). simpl.
  apply list_elem_of_fmap. by exists cf.
Qed.

Lemma build_row_keys names cids fams row0 row c :
  fold_result (row_step names cids) row0 fams = Ok row ->
  c ∈ map fst row ->
  c ∈ map fst row0 \/ exists fam, fam ∈ fams /\ fam.2.1 = c.
Proof.
  revert row0. induction fams as [|[fid [fname members]] fams IH];
    intros row0; simpl.
  - intros [= <-]. by left.
  - destruct (cell names cids members) as [s|]; simpl; [|done].
    intros Hf Hc. destruct (IH _ Hf Hc) as [Hc'|(fam & Hfam & <-)].
    + apply list_elem_of_fmap in Hc' as (x & -> & [->|Hx]%dict_set_elem).
      * right. exists (fid, (fname, members)).
        split; [apply list_elem_of_here | done].
      * left. apply list_elem_of_fmap. by exists x.
    + right. exists fam. split; [by apply list_elem_of_further | done].
Qed.

Lemma build_output_keys names fams tcs out r c :
  build_output names fams tcs = Ok out ->
  r ∈ out -> c ∈ map fst r.2 ->
  exists fam, fam ∈ fams /\ fam.2.1 = c.
Proof.
  unfold build_output.
  assert (forall out0,
    (forall r0, r0 ∈ out0 -> c ∈ map fst r0.2 ->
                exists fam, fam ∈ fams /\ fam.2.1 = c) ->
    fold_result (output_step names fams) out0 tcs = Ok out ->
    r ∈ out -> c ∈ map fst r.2 ->
    exists fam, fam ∈ fams /\ fam.2.1 = c) as Hfold.
  { induction tcs as [|[tac cids] tcs IH]; intros out0 Hinv; simpl.
    - intros [= <-]. apply Hinv.
    - unfold output_step at 1. simpl.
      destruct (build_row names fams cids) as [row|] eqn:Er; simpl; [|done].
      apply IH. intros r0 [->|Hr0]%dict_set_elem Hc; [|by apply (Hinv r0)].
      simpl in Hc. destruct (build_row_keys _ _ _ _ _ _ Er Hc) as [Hnil|?];
        [|done].
      by apply elem_of_nil in Hnil. }
  apply (Hfold []). by intros r0 ?%elem_of_nil.
Qed.

Lemma add_labels_elem seen new c :
  c ∈ add_labels seen new <-> c ∈ seen \/ c ∈ new.
Proof.
  revert seen. induction new as [|d new IH]; intros seen; simpl.
  - split; [by left|]. intros [?|?%elem_of_nil]; done.
  - rewrite IH, elem_of_cons. destruct (decide (d ∈ seen)) as [Hd|Hd].
    + split; [tauto|]. intros [?|[->|?]]; tauto.
    + rewrite elem_of_app, list_elem_of_singleton. tauto.
Qed.

Lemma union_labels_elem {X} (f : X -> list string) xs c :
  c ∈ union_labels f xs <-> exists x, x ∈ xs /\ c ∈ f x.
Proof.
  unfold union_labels.
  assert (forall seen,
    c ∈ fold_left (fun seen x => add_labels seen (f x)) xs seen <->
    c ∈ seen \/ exists x, x ∈ xs /\ c ∈ f x) as Hfold.
  { induction xs as [|x xs IH]; intros seen; simpl.
    - split; [by left|]. intros [?|(x & ?%elem_of_nil & _)]; done.
    - rewrite IH, add_labels_elem. split.
      + intros [[?|?]|(x' & ? & ?)]; [by left| |].
        * right. exists x. split; [apply list_elem_of_here | done].
        * right. exists x'. split; [by apply list_elem_of_further | done].
      + intros [?|(x' & [->|?]%elem_of_cons & ?)]; [tauto|tauto|].
        right. by exists x'. }
  rewrite Hfold. split; [|by right]. intros [?%elem_of_nil|?]; done.
Qed.

Lemma rows_with_elem out c i :
  i ∈ rows_with out c <-> exists row, (i, row) ∈ out /\ c ∈ map fst row.
Proof.
  unfold rows_with. rewrite list_elem_of_fmap. split.
  - intros ([i' row] & -> & Hin). exists row.
    apply list_elem_of_In, filter_In in Hin as [Hin Hc].
    apply bool_decide_eq_true in Hc. split; [by apply list_elem_of_In | done].
  - intros (row & Hin & Hc). exists (i, row). split; [done|].
    apply list_elem_of_In, filter_In. split; [by apply list_elem_of_In|].
    by apply bool_decide_eq_true.
Qed.

Lemma from_dict_columns how out c :
  c ∈ df_columns (from_dict how out) <->
  exists r, r ∈ out /\ c ∈ map fst r.2.
Proof. unfold from_dict. cbn [df_columns]. apply union_labels_elem. Qed.

Lemma from_dict_index how out :
  map fst (df_rows (from_dict how out))
  = match how with
    | FromColumns =>
        union_labels (rows_with out)
          (union_labels (fun r : string * list (string * string) =>
                           map fst r.2) out)
    | FromKeys => map fst out
    end.
Proof.
  unfold from_dict. cbn [df_rows]. rewrite map_map. cbn [fst].
  by rewrite map_id.
Qed.

(** Under the older rule, the rows of the frame are the rows of the mapping
    that have an entry. *)
Lemma from_dict_labels_columns out i :
  i ∈ map fst (df_rows (from_dict FromColumns out)) <->
  exists row, (i, row) ∈ out /\ row <> [].
Proof.
  rewrite from_dict_index, union_labels_elem. split.
  - intros (c & _ & (row & Hin & Hc)%rows_with_elem). exists row.
    split; [done|]. intros ->. by apply elem_of_nil in Hc.
  - intros (row & Hin & Hne). destruct row as [|[c v] row]; [done|].
    exists c. split.
    + apply union_labels_elem. exists (i, (c, v) :: row).
      split; [done | apply list_elem_of_here].
    + apply rows_with_elem. exists ((c, v) :: row).
      split; [done | apply list_elem_of_here].
Qed.

(** Under either rule, a row of the frame is a row of the mapping. *)
Lemma from_dict_labels_keys how out i :
  i ∈ map fst (df_rows (from_dict how out)) -> i ∈ map fst out.
Proof.
  destruct how; [|by rewrite from_dict_index].
  intros (row & Hin & _)%from_dict_labels_columns.
  apply list_elem_of_fmap. by exists (i, row).
Qed.

(** A row of the mapping is a row of the frame: under the later rule
    always, under the older one when it has an entry. *)
Lemma from_dict_labels_row how out i row :
  (i, row) ∈ out -> how = FromKeys \/ row <> [] ->
  i ∈ map fst (df_rows (from_dict how out)).
Proof.
  intros Hin Hhow. destruct how.
  - destruct Hhow as [?|Hne]; [done|].
    apply from_dict_labels_columns. by exists row.
  - rewrite from_dict_index. apply list_elem_of_fmap. by exists (i, row).
Qed.

Lemma cell_at_absent columns cells (c : string) :
  c ∉ columns -> cell_at columns cells c = None.
Proof.
  revert cells. induction columns as [|c' columns IH]; intros cells;
    simpl; [done|].
  intros [Hne Hnin]%not_elem_of_cons. destruct cells as [|v cells]; [done|].
  rewrite decide_False by done. by apply IH.
Qed.

Lemma cell_at_map (f : string -> option string) l (c : string) :
  c ∈ l -> cell_at l (map f l) c = f c.
Proof.
  induction l as [|c' l IH]; simpl.
  - by intros ?%elem_of_nil.
  - intros Hc. destruct (decide (c' = c)) as [->|Hne]; [done|].
    apply elem_of_cons in Hc as [->|Hc]; [done | by apply IH].
Qed.

(** ** Step 8: the sort *)

Lemma map_result_length {A B} (f : A -> result B) l bs :
  map_result f l = Ok bs -> length bs = length l.
Proof. intros H%map_result_ok. symmetry. by eapply Forall2_length. Qed.

Lemma map_snd_combine {A B} (l1 : list A) (l2 : list B) :
  length l1 = length l2 -> map snd (combine l1 l2) = l2.
Proof.
  revert l2. induction l1 as [|a l1 IH]; intros [|b l2]; simpl; try done.
  intros [= Hl]. by rewrite IH.
Qed.


Lemma map_result_fails {A B} (f : A -> result B) l e :
  map_result f l = Raise e -> exists a, a ∈ l /\ f a = Raise e.
Proof.
  induction l as [|x l IH]; simpl; [done|].
  destruct (f x) as [b|e'] eqn:Ex; simpl.
  - destruct (map_result f l) as [bs|e'']; simpl; [done|].
    intros [= <-]. destruct (IH eq_refl) as (a & Ha & Hf).
    exists a. split; [by apply list_elem_of_further | done].
  - intros [= <-]. exists x. split; [apply list_elem_of_here | done].
Qed.


Lemma sort_index_ok df df' :
  sort_index df = Ok df' ->
  df_columns df' = df_columns df /\ df_rows df' ≡ₚ df_rows df.
Proof.
  unfold sort_index.
  destruct (map_result _ _) as [keys|] eqn:Ek; simpl; [|done].
  intros [= <-]. simpl. split; [done|].
  rewrite sorted_perm, map_snd_combine; [done|].
  apply map_result_length in Ek. by rewrite Ek, length_map.
Qed.

Lemma reindex_labels new_columns df :
  map fst (df_rows (reindex new_columns df)) = map fst (df_rows df).
Proof. unfold reindex. simpl. rewrite map_map. by apply map_ext. Qed.

(** C6: whatever the input, the table that is written has the twelve fixed
    headers as its columns, in the fixed order, every row has twelve cells,
    and the column of a header that names no family of the input is empty in
    every row. *)
Theorem twelve_fixed_columns (how : index_rule) (doc : document)
    (df : data_frame) :
  run how doc = Ok df ->
  df_columns df =
    [ "1. Title"; "2. Description"; "3. Participant";
      "4. Related Software Artifact"; "5. Context"; "6. Software Feature";
      "7. Tactic Intent"; "8. Target Quality Attribute";
      "9. Other Related Quality Attributes"; "10. Measured Impact";
      "11. Level of abstraction"; "12. Tool or framework" ]
  /\ length (df_columns df) = 12%nat
  /\ forall r, r ∈ df_rows df ->
       length r.2 = 12%nat
       /\ forall c, c ∈ df_columns df ->
            c ∉ map cf_name (doc_families doc) ->
            cell_at (df_columns df) r.2 c = None.
Proof.
  unfold run.
  destruct (tactic_codes _ _ _) as [tcs|]; simpl; [|done].
  destruct (build_output _ _ _) as [out|] eqn:Eo; simpl; [|done].
  intros (Hc & Hr)%sort_index_ok.
  change (df_columns df = cols) in Hc. rewrite Hc.
  split; [reflexivity|]. split; [reflexivity|].
  intros r Hin. rewrite Hr in Hin. unfold reindex in Hin.
  cbn [df_rows] in Hin.
  apply list_elem_of_fmap in Hin as (r0 & -> & Hr0). cbn [snd].
  split; [by rewrite length_map|].
  intros c Hcol Hfam. rewrite cell_at_map by done.
  apply cell_at_absent. intros Hcol0.
  apply from_dict_columns in Hcol0 as (r' & Hr' & Hkey).
  destruct (build_output_keys _ _ _ _ _ _ Eo Hr' Hkey) as (fam & Hf & <-).
  by apply Hfam, families_names.
Qed.

Lemma twelve_fixed_columns_witness :
  exists df, run FromKeys paper_example = Ok df
    /\ df_columns df = cols
    /\ length (df_columns df) = 12%nat
    /\ forall r, r ∈ df_rows df ->
         length r.2 = 12%nat
         /\ forall c, c ∈ df_columns df ->
              c ∉ map cf_name (doc_families paper_example) ->
              cell_at (df_columns df) r.2 c = None.
Proof.
  eexists. split; [vm_compute; reflexivity|].
  apply (twelve_fixed_columns FromKeys paper_example).
  vm_compute. reflexivity.
Defined.

Lemma frame_labels_keys how out i :
  i ∈ map fst (df_rows (reindex cols (from_dict how out))) ->
  i ∈ map fst out.
Proof. rewrite reindex_labels. apply from_dict_labels_keys. Qed.

Lemma frame_labels_row how out i row :
  (i, row) ∈ out -> how = FromKeys \/ row <> [] ->
  i ∈ map fst (df_rows (reindex cols (from_dict how out))).
Proof. rewrite reindex_labels. apply from_dict_labels_row. Qed.









Example sort_nine_before_ten (how : index_rule) :
  sort_index (reindex cols (from_dict how [("10", [("1. Title", "B")]);
                                           ("9", [("1. Title", "A")])]))
  = Ok (DataFrame cols
          [("9", [Some "A"; None; None; None; None; None; None; None; None;
                  None; None; None]);
           ("10", [Some "B"; None; None; None; None; None; None; None; None;
                   None; None; None])]).
Proof. destruct how; vm_compute; reflexivity. Qed.

(** * Further properties of the stages *)

(** ** Step 2: names without a suffix, and what the index holds *)

Lemma search_suffix_none (raw : string) :
  Re.search code_suffix_re raw = None <->
  ~ has_tactic_suffix (Str.chars raw).
Proof.
  split.
  - intros Hnone (pre & ds & ws & Hraw & Hne & Hds & Hws).
    destruct (search_suffix raw pre ds ws Hraw Hne Hds Hws) as (m & _ & Hm & _).
    congruence.
  - intros Hno. unfold Re.search.
    destruct (Re.search_from _ _ _) as [m|] eqn:Es; [|done].
    exfalso. apply Hno.
    apply search_from_spec in Es as (i & Hi & _ & Hm & _).
    apply match_suffix_elim in Hm as (w1 & w2 & Hd & _ & Hne & Hds & Hw2).
    exists (take i (Str.chars raw) ++ w1), (Re.m_group1 m), w2.
    split_and!; [|done..].
    rewrite <- app_assoc, <- Hd. by rewrite take_drop.
Qed.

(** A code definition whose raw name carries no suffix is recorded under its
    raw name, unchanged, and leaves the override of its id as the earlier
    definitions of that id made it: none when there is none, a stale one
    when an earlier definition of the same id had a suffix. *)
Theorem code_without_suffix_verbatim (before after : list code_el)
    (c : code_el) :
  ~ has_tactic_suffix (Str.chars (c_name c)) ->
  c_id c ∉ map c_id after ->
  code_to_name (build_code_index (before ++ c :: after)) !! c_id c
    = Some (c_name c)
  /\ code_to_tactic_override (build_code_index (before ++ c :: after))
       !! c_id c
     = code_to_tactic_override (build_code_index before) !! c_id c.
Proof.
  intros Hno%search_suffix_none Hlast. unfold build_code_index.
  rewrite fold_left_app. simpl.
  destruct (code_index_fold_other after
              (code_index_step
                 (fold_left code_index_step before (CodeIndex ∅ ∅)) c)
              (c_id c) Hlast) as [-> ->].
  unfold code_index_step. rewrite Hno. simpl.
  by rewrite lookup_insert_eq.
Qed.

Lemma code_without_suffix_verbatim_witness :
  code_to_name
    (build_code_index [Code "c1" "Old (T1)"; Code "c1" " New (T) "]) !! "c1"
    = Some " New (T) "
  /\ code_to_tactic_override
       (build_code_index [Code "c1" "Old (T1)"; Code "c1" " New (T) "]) !! "c1"
     = code_to_tactic_override (build_code_index [Code "c1" "Old (T1)"])
         !! "c1".
Proof.
  apply (code_without_suffix_verbatim [Code "c1" "Old (T1)"] []
           (Code "c1" " New (T) ")).
  - apply search_suffix_none. vm_compute. reflexivity.
  - simpl. apply not_elem_of_nil.
Defined.

Lemma code_index_step_names ix c (cid : string) :
  is_Some (code_to_name (code_index_step ix c) !! cid) <->
  cid = c_id c \/ is_Some (code_to_name ix !! cid).
Proof.
  unfold code_index_step.
  destruct (Re.search code_suffix_re (c_name c)); simpl;
    rewrite lookup_insert_is_Some; destruct (decide (c_id c = cid));
    intuition congruence.
Qed.

Lemma code_index_step_overrides ix c (cid t : string) :
  code_to_tactic_override (code_index_step ix c) !! cid = Some t ->
  (cid = c_id c /\ t <> "" /\ forallb Str.is_digit (Str.chars t) = true)
  \/ code_to_tactic_override ix !! cid = Some t.
Proof.
  unfold code_index_step, Re.search.
  destruct (Re.search_from _ _ _) as [m|] eqn:Es; simpl; [|by right].
  destruct (decide (c_id c = cid)) as [<-|Hne].
  - rewrite lookup_insert_eq. intros [= <-]. left.
    apply search_from_spec in Es as (i & _ & _ & Hm & _).
    apply match_suffix_elim in Hm as (_ & _ & _ & _ & Hne & Hds & _).
    rewrite list_ascii_of_string_of_list_ascii. split_and!; [done| |done].
    by destruct (Re.m_group1 m).
  - rewrite lookup_insert_ne by done. by right.
Qed.

Lemma code_index_fold_spec codes ix (cid : string) :
  (is_Some (code_to_name (fold_left code_index_step codes ix) !! cid) <->
   cid ∈ map c_id codes \/ is_Some (code_to_name ix !! cid))
  /\ forall t,
       code_to_tactic_override (fold_left code_index_step codes ix) !! cid
         = Some t ->
       (cid ∈ map c_id codes /\ t <> ""
        /\ forallb Str.is_digit (Str.chars t) = true)
       \/ code_to_tactic_override ix !! cid = Some t.
Proof.
  revert ix. induction codes as [|c codes IH]; intros ix; simpl.
  - split; [|by right]. split; [by right|].
    by intros [?%elem_of_nil|?].
  - destruct (IH (code_index_step ix c)) as [IHn IHo]. split.
    + rewrite IHn, code_index_step_names, elem_of_cons. tauto.
    + intros t [(Hin & Ht)|Hstep]%IHo.
      * left. split; [by apply list_elem_of_further | done].
      * apply code_index_step_overrides in Hstep as [(-> & Ht)|Hix];
          [|by right].
        left. split; [apply list_elem_of_here | done].
Qed.

Lemma code_index_names codes (cid : string) :
  is_Some (code_to_name (build_code_index codes) !! cid) <->
  cid ∈ map c_id codes.
Proof.
  unfold build_code_index.
  destruct (code_index_fold_spec codes (CodeIndex ∅ ∅) cid) as [Hn _].
  rewrite Hn. simpl. rewrite lookup_empty. split; [|by left].
  by intros [?|[? ?]].
Qed.

Lemma code_index_overrides codes (cid t : string) :
  code_to_tactic_override (build_code_index codes) !! cid = Some t ->
  cid ∈ map c_id codes /\ t <> ""
  /\ forallb Str.is_digit (Str.chars t) = true.
Proof.
  unfold build_code_index.
  destruct (code_index_fold_spec codes (CodeIndex ∅ ∅) cid) as [_ Ho].
  intros [?|Hemp]%Ho; [done|]. simpl in Hemp.
  by rewrite lookup_empty in Hemp.
Qed.

(** The index knows exactly the ids of the code definitions; an override
    exists only for such an id, and it is a non-empty string of digits. *)
Theorem code_index_domains (codes : list code_el) (cid : string) :
  (is_Some (code_to_name (build_code_index codes) !! cid) <->
   cid ∈ map c_id codes)
  /\ forall t,
       code_to_tactic_override (build_code_index codes) !! cid = Some t ->
       cid ∈ map c_id codes /\ t <> ""
       /\ forallb Str.is_digit (Str.chars t) = true.
Proof.
  split; [apply code_index_names | apply code_index_overrides].
Qed.

(** ** [str.strip] *)

Lemma drop_while_head p s c s' :
  Str.drop_while p s = c :: s' -> p c = false.
Proof.
  induction s as [|d s IH]; simpl; [done|].
  destruct (p d) eqn:E; [done|]. by intros [= <- <-].
Qed.

Lemma drop_while_fixed p s :
  match s with [] => True | c :: _ => p c = false end ->
  Str.drop_while p s = s.
Proof. destruct s as [|c s]; simpl; [done|]. by intros ->. Qed.

Lemma drop_while_suffix p s : exists w, s = w ++ Str.drop_while p s.
Proof. exists (Str.take_while p s). by rewrite take_drop_while. Qed.

(** What [strip] returns has no white space left to strip. *)
Lemma strip_idempotent s : Str.strip (Str.strip s) = Str.strip s.
Proof.
  unfold Str.strip, Str.lstrip.
  assert (Str.rstrip (Str.drop_while Str.is_space (Str.rstrip s))
          = Str.drop_while Str.is_space (Str.rstrip s)) as ->.
  { unfold Str.rstrip at 1.
    destruct (Str.drop_while Str.is_space (Str.rstrip s)) as [|c t] eqn:Ed;
      [done|].
    destruct (drop_while_suffix Str.is_space (Str.rstrip s)) as [w Hw].
    rewrite Ed in Hw.
    assert (match rev (c :: t) with
            | [] => True
            | d :: _ => Str.is_space d = false
            end) as Hlast.
    { unfold Str.rstrip in Hw.
      apply (f_equal (@rev ascii)) in Hw.
      rewrite rev_involutive, rev_app_distr in Hw.
      destruct (rev (c :: t)) as [|d r] eqn:Er; [done|].
      simpl in Hw. by apply drop_while_head in Hw. }
    rewrite drop_while_fixed by done. apply rev_involutive. }
  apply drop_while_fixed.
  destruct (Str.drop_while Str.is_space (Str.rstrip s)) as [|c t] eqn:Ed;
    [done|]. by apply drop_while_head in Ed.
Qed.

(** The display name recorded for a code with a tactic suffix has no white
    space at either end. *)
Theorem display_name_trimmed (before after : list code_el) (c : code_el) :
  has_tactic_suffix (Str.chars (c_name c)) ->
  c_id c ∉ map c_id after ->
  exists n,
    code_to_name (build_code_index (before ++ c :: after)) !! c_id c = Some n
    /\ Str.strip (Str.chars n) = Str.chars n.
Proof.
  intros (pre & ds & ws & Hraw & Hne & Hds & Hws) Hlast.
  unfold build_code_index. rewrite fold_left_app. simpl.
  destruct (code_index_fold_other after
              (code_index_step
                 (fold_left code_index_step before (CodeIndex ∅ ∅)) c)
              (c_id c) Hlast) as [-> _].
  destruct (search_suffix _ _ _ _ Hraw Hne Hds Hws) as (m & w & Hs & _).
  unfold code_index_step. rewrite Hs. simpl. rewrite lookup_insert_eq.
  eexists. split; [done|].
  by rewrite list_ascii_of_string_of_list_ascii, strip_idempotent.
Qed.

Lemma display_name_trimmed_witness :
  exists n,
    code_to_name (build_code_index [Code "c1" "  Use a cache  (T7) "]) !! "c1"
      = Some n
    /\ Str.strip (Str.chars n) = Str.chars n.
Proof.
  apply (display_name_trimmed [] [] (Code "c1" "  Use a cache  (T7) ")).
  - exists (Str.chars "  Use a cache  "), (Str.chars "7"), (Str.chars " ").
    split_and!; [reflexivity | done | reflexivity | reflexivity].
  - simpl. apply not_elem_of_nil.
Defined.

(** ** Step 3: quotations *)

(** The tactic of a quotation is absent exactly when its name holds no
    marker; when present it is the digits of a marker of the name. *)
Theorem marker_tactic_spec (name : string) :
  (marker_tactic name = None <->
   forall pre ds, ~ marker_occurs (Str.chars name) pre ds)
  /\ forall t, marker_tactic name = Some t ->
       exists pre, marker_occurs (Str.chars name) pre (Str.chars t).
Proof.
  unfold marker_tactic, Re.search. split.
  - destruct (Re.search_from _ _ _) as [m|] eqn:Es; split; try done.
    + intros Hno. exfalso.
      apply search_from_spec in Es as (i & Hi & _ & Hm & _).
      by apply (Hno _ _ (match_marker_occurs _ _ _ Hi Hm)).
    + intros _ pre ds Hocc.
      pose proof (marker_occurs_match _ _ _ Hocc) as Hhere.
      assert (length pre <= length (Str.chars name))%nat as Hlen.
      { destruct Hocc as (_ & _ & post & ->). rewrite length_app. lia. }
      destruct (search_from_complete quote_marker_re _ 0 _ _ Hlen Hhere)
        as [m Hm]. congruence.
  - intros t. destruct (Re.search_from _ _ _) as [m|] eqn:Es; [|done].
    intros [= <-]. apply search_from_spec in Es as (i & Hi & _ & Hm & _).
    exists (take i (Str.chars name)).
    rewrite list_ascii_of_string_of_list_ascii.
    by apply match_marker_occurs.
Qed.

Lemma enumerate_quotes_lookup idx els i q :
  enumerate_quotes idx els !! i = Some q <->
  exists el, els !! i = Some el
    /\ q = Quote (q_id el) (idx + i) (marker_tactic (q_name el)).
Proof.
  revert idx i. induction els as [|el els IH]; intros idx i; simpl.
  - split; [done|]. by intros (? & ? & _).
  - destruct i as [|i]; simpl.
    + rewrite Nat.add_0_r. split.
      * intros [= <-]. by exists el.
      * by intros (? & [= <-] & ->).
    + rewrite IH. by replace (S idx + i)%nat with (idx + S i)%nat by lia.
Qed.

(** The quotation list mirrors the document: the record at position [i] is
    built from the [i]-th quotation element, carries [i] as its order and the
    marker of the element's name as its tactic. *)
Theorem quotes_follow_document (doc : document) (i : nat) (q : quote) :
  (quotes doc !! i = Some q <->
   exists el, doc_quotations doc !! i = Some el
     /\ q = Quote (q_id el) i (marker_tactic (q_name el)))
  /\ length (quotes doc) = length (doc_quotations doc).
Proof.
  unfold quotes. split; [apply (enumerate_quotes_lookup 0)|].
  generalize 0%nat. induction (doc_quotations doc) as [|el els IH];
    intros idx; simpl; [done|]. by rewrite IH.
Qed.

Lemma enumerate_quotes_app idx l1 l2 :
  enumerate_quotes idx (l1 ++ l2)
  = enumerate_quotes idx l1 ++ enumerate_quotes (idx + length l1) l2.
Proof.
  revert idx. induction l1 as [|el l1 IH]; intros idx; simpl.
  - by rewrite Nat.add_0_r.
  - rewrite IH. by replace (S idx + length l1)%nat
      with (idx + S (length l1))%nat by lia.
Qed.

Lemma enumerate_quotes_ids idx els :
  map qid (enumerate_quotes idx els) = map q_id els.
Proof.
  revert idx. induction els as [|el els IH]; intros idx; simpl; [done|].
  by rewrite IH.
Qed.

Lemma quotes_by_id_fold_other qs (m : gmap string quote) (k : string) :
  k ∉ map qid qs ->
  fold_left (fun m q => <[qid q := q]> m) qs m !! k = m !! k.
Proof.
  revert m. induction qs as [|q qs IH]; intros m; simpl; [done|].
  intros [Hne Hnin]%not_elem_of_cons. rewrite IH by done.
  by rewrite lookup_insert_ne.
Qed.

Lemma quotes_by_id_last l1 q l2 :
  qid q ∉ map qid l2 ->
  quotes_by_id (l1 ++ q :: l2) !! qid q = Some q.
Proof.
  intros Hlast. unfold quotes_by_id. rewrite fold_left_app. simpl.
  rewrite quotes_by_id_fold_other by done. apply lookup_insert_eq.
Qed.

Lemma quotes_by_id_elem qs (k : string) r :
  quotes_by_id qs !! k = Some r -> r ∈ qs /\ qid r = k.
Proof.
  unfold quotes_by_id.
  assert (forall m : gmap string quote,
    fold_left (fun m q => <[qid q := q]> m) qs m !! k = Some r ->
    (r ∈ qs /\ qid r = k) \/ m !! k = Some r) as Hfold.
  { induction qs as [|q qs IH]; intros m; simpl; [by right|].
    intros [[Hin Hk]|Hm]%IH.
    - left. split; [by apply list_elem_of_further | done].
    - destruct (decide (qid q = k)) as [Heq|Hne].
      + rewrite <- Heq, lookup_insert_eq in Hm. injection Hm as <-.
        left. split; [apply list_elem_of_here | done].
      + rewrite lookup_insert_ne in Hm by done. by right. }
  intros [?|Hemp]%Hfold; [done|]. by rewrite lookup_empty in Hemp.
Qed.

Lemma last_with_id qs (k : string) :
  k ∈ map qid qs ->
  exists l1 q l2, qs = l1 ++ q :: l2 /\ qid q = k /\ k ∉ map qid l2.
Proof.
  induction qs as [|x qs IH]; simpl; [by intros ?%elem_of_nil|].
  intros Hin. destruct (decide (k ∈ map qid qs)) as [Hin'|Hnin].
  - destruct (IH Hin') as (l1 & q & l2 & -> & Hq & Hlast).
    by exists (x :: l1), q, l2.
  - apply elem_of_cons in Hin as [->|Hin]; [|done].
    by exists [], x, qs.
Qed.

Lemma quotes_by_id_none qs (k : string) :
  quotes_by_id qs !! k = None <-> k ∉ map qid qs.
Proof.
  split.
  - intros Hnone (l1 & q & l2 & -> & <- & Hlast)%last_with_id.
    by rewrite quotes_by_id_last in Hnone.
  - intros Hnin. unfold quotes_by_id.
    rewrite quotes_by_id_fold_other by done. apply lookup_empty.
Qed.

(** The index by id keeps, for an id that several quotations share, the last
    of them: its record carries the position of that last quotation. *)
Theorem quotes_by_id_last_wins (doc : document) (l1 l2 : list q_el)
    (el : q_el) :
  doc_quotations doc = l1 ++ el :: l2 ->
  q_id el ∉ map q_id l2 ->
  quotes_by_id (quotes doc) !! q_id el
  = Some (Quote (q_id el) (length l1) (marker_tactic (q_name el))).
Proof.
  intros Hdoc Hlast. unfold quotes. rewrite Hdoc, enumerate_quotes_app.
  simpl.
  apply (quotes_by_id_last _
           (Quote (q_id el) (length l1) (marker_tactic (q_name el)))).
  simpl. by rewrite enumerate_quotes_ids.
Qed.

Lemma quotes_by_id_last_wins_witness :
  quotes_by_id
    (quotes (Document [] [Q "q1" "first (AT1)"; Q "q2" "x"; Q "q1" "again"]
               [] []))
    !! "q1"
  = Some (Quote "q1" 2 None).
Proof.
  apply (quotes_by_id_last_wins
           (Document [] [Q "q1" "first (AT1)"; Q "q2" "x"; Q "q1" "again"]
              [] [])
           [Q "q1" "first (AT1)"; Q "q2" "x"] [] (Q "q1" "again")).
  - reflexivity.
  - simpl. apply not_elem_of_nil.
Defined.

(** [find_tactic_for] answers for exactly the ids of the quotation elements
    of the document, and raises [KeyError] with the id for every other id. *)
Theorem find_tactic_for_defined (doc : document) (q : string) :
  (q ∈ map q_id (doc_quotations doc) <->
   exists r, find_tactic_for (quotes doc) q = Ok r)
  /\ (q ∉ map q_id (doc_quotations doc) <->
      find_tactic_for (quotes doc) q = Raise (KeyError q)).
Proof.
  unfold find_tactic_for.
  pose proof (quotes_by_id_none (quotes doc) q) as Hnone.
  unfold quotes in Hnone at 2. rewrite enumerate_quotes_ids in Hnone.
  destruct (quotes_by_id (quotes doc) !! q) as [rec|] eqn:E.
  - assert (q ∈ map q_id (doc_quotations doc)) as Hin.
    { destruct (decide (q ∈ map q_id (doc_quotations doc))) as [|Hnin];
        [done|]. by apply Hnone in Hnin. }
    split; split; try done. by eexists.
  - assert (q ∉ map q_id (doc_quotations doc)) as Hnin by by apply Hnone.
    split; split; try done. by intros [? ?].
Qed.

(** ** The title quotations *)

Lemma sorted_fixed {A} (leb : A -> A -> bool) l :
  StronglySorted (fun a b => leb a b = true) l -> sorted leb l = l.
Proof.
  induction 1 as [|x l Hl IH Hx]; simpl; [done|]. rewrite IH.
  destruct l as [|y l]; simpl; [done|].
  apply Forall_cons in Hx as [-> _]. done.
Qed.

Lemma StronglySorted_filter {A} (R : A -> A -> Prop) (f : A -> bool) l :
  StronglySorted R l -> StronglySorted R (List.filter f l).
Proof.
  induction 1 as [|x l Hl IH Hx]; simpl; [constructor|].
  destruct (f x); [|done]. constructor; [done|].
  apply Forall_forall. intros y [Hy _]%list_elem_of_In%filter_In.
  rewrite Forall_forall in Hx. by apply Hx, list_elem_of_In.
Qed.

Lemma enumerate_quotes_ascending idx els :
  StronglySorted (fun a b => (order a < order b)%nat)
    (enumerate_quotes idx els)
  /\ Forall (fun q => (idx <= order q)%nat) (enumerate_quotes idx els).
Proof.
  revert idx. induction els as [|el els IH]; intros idx; simpl.
  - split; constructor.
  - destruct (IH (S idx)) as [Hs Hf]. split.
    + constructor; [done|]. eapply Forall_impl; [exact Hf|].
      simpl. intros q Hq. lia.
    + constructor; [simpl; lia|]. eapply Forall_impl; [exact Hf|].
      simpl. intros q Hq. lia.
Qed.

Lemma ascending_injective {A} (f : A -> nat) l x y :
  StronglySorted (fun a b => (f a < f b)%nat) l ->
  x ∈ l -> y ∈ l -> f x = f y -> x = y.
Proof.
  induction 1 as [|z l Hl IH Hz]; [by intros ?%elem_of_nil|].
  rewrite Forall_forall in Hz.
  intros [->|Hx]%elem_of_cons [->|Hy]%elem_of_cons Heq; [done| | |by apply IH].
  - apply Hz in Hy. lia.
  - apply Hz in Hx. lia.
Qed.

(** The quotations come in ascending order already, so sorting the title
    quotations changes nothing: they are the marker-carrying quotations in
    document order. *)
Theorem title_quotes_in_document_order (doc : document) :
  title_quotes (quotes doc) = List.filter has_tactic (quotes doc)
  /\ forall q, q ∈ title_quotes (quotes doc) <->
       q ∈ quotes doc /\ is_Some (tactic q).
Proof.
  split.
  - unfold title_quotes. apply sorted_fixed.
    apply StronglySorted_filter.
    eapply StronglySorted_weaken;
      [|exact (proj1 (enumerate_quotes_ascending 0 (doc_quotations doc)))].
    intros a b Hab. unfold order_leb. apply Nat.leb_le. simpl in Hab. lia.
  - intros q. rewrite title_quotes_elem. split.
    + intros [Hin Hhas]. split; [done|].
      by apply (has_tactic_marker 0 (doc_quotations doc)).
    + intros [Hin Hsome]. split; [done|].
      by apply (has_tactic_marker 0 (doc_quotations doc)).
Qed.

(** A quotation that carries a marker resolves to its own marker. *)
Theorem marked_quotation_resolves_to_itself (doc : document) (q t : string)
    (rec : quote) :
  quotes_by_id (quotes doc) !! q = Some rec ->
  tactic rec = Some t ->
  find_tactic_for (quotes doc) q = Ok (Some t).
Proof.
  intros Hrec Ht. unfold find_tactic_for. rewrite Hrec. f_equal.
  apply quotes_by_id_elem in Hrec as [Hin _].
  assert (rec ∈ title_quotes (quotes doc)) as Htitle.
  { apply title_quotes_elem. split; [done|].
    apply (has_tactic_marker 0 (doc_quotations doc)); [done|].
    by rewrite Ht. }
  destruct (scan_titles_rev (title_quotes (quotes doc)) (order rec)
              (title_quotes_ordered _))
    as [(tq & Hin' & Hle & Hscan & Hbest)|[_ Hall]].
  - assert (tq = rec) as ->; [|by rewrite Hscan].
    apply title_quotes_elem in Hin' as [Hin' _].
    apply (ascending_injective order (quotes doc)); [|done..|].
    + exact (proj1 (enumerate_quotes_ascending 0 (doc_quotations doc))).
    + specialize (Hbest rec Htitle (le_n _)). lia.
  - specialize (Hall rec Htitle). lia.
Qed.

Lemma marked_quotation_resolves_to_itself_witness :
  find_tactic_for (quotes paper_example) "q3" = Ok (Some "10").
Proof.
  apply (marked_quotation_resolves_to_itself paper_example "q3" "10"
           (Quote "q3" 3 (Some "10"))).
  - vm_compute. reflexivity.
  - reflexivity.
Defined.

(** ** Step 5: what the aggregator files *)

Lemma filed_add_code tcs t c t' c' :
  filed (add_code t c tcs) t' c' <-> filed tcs t' c' \/ (t' = t /\ c' = c).
Proof.
  unfold filed, add_code. destruct (decide (t = t')) as [<-|Hne].
  - destruct (dict_get t tcs) as [cids|] eqn:E; rewrite dict_get_set_eq.
    + split.
      * intros (? & [= <-] & [->%elem_of_singleton|?]%elem_of_union);
          [by right | left; by eexists].
      * intros [(? & [= <-] & ?)|[_ ->]]; eexists; (split; [done|]);
          set_solver.
    + split.
      * intros (? & [= <-] & ->%elem_of_singleton). by right.
      * intros [(? & ? & _)|[_ ->]]; [done|]. eexists. split; [done|].
        set_solver.
  - assert (forall v, dict_get t' (dict_set t v tcs) = dict_get t' tcs) as Hget.
    { intros v. by apply dict_get_set_ne. }
    destruct (dict_get t tcs); rewrite Hget; split; try tauto;
      intros [?|[-> _]]; done.
Qed.

Lemma link_step_inv ix qs tcs link tcs' :
  link_step ix qs tcs link = Ok tcs' ->
  (exists t, files_under ix qs link t /\ tcs' = add_code t (l_obj link) tcs)
  \/ ((forall t, ~ files_under ix qs link t) /\ tcs' = tcs).
Proof.
  unfold link_step, files_under.
  destruct (effective_tactic ix qs link) as [[t|]|]; simpl; [| |done].
  - destruct (Str.truthy t) eqn:Et; intros [= <-].
    + left. by exists t.
    + right. split; [|done]. intros t' [[= <-] ?]. congruence.
  - intros [= <-]. right. split; [|done]. by intros t' [? _].
Qed.

Lemma tactic_codes_fold_filed ix qs links acc tcs t c :
  fold_result (link_step ix qs) acc links = Ok tcs ->
  filed tcs t c <->
  filed acc t c
  \/ exists link, link ∈ links /\ l_obj link = c /\ files_under ix qs link t.
Proof.
  revert acc. induction links as [|l links IH]; intros acc; simpl.
  - intros [= <-]. split; [by left|].
    by intros [?|(? & ?%elem_of_nil & _)].
  - destruct (link_step ix qs acc l) as [acc'|] eqn:El; simpl; [|done].
    intros Hf. rewrite (IH _ Hf). clear IH Hf.
    apply link_step_inv in El as [(t0 & Hfile & ->)|[Hno ->]].
    + rewrite filed_add_code. split.
      * intros [[?|[-> ->]]|(l' & ? & ? & ?)]; [by left| |].
        -- right. exists l. split; [apply list_elem_of_here | done].
        -- right. exists l'. split; [by apply list_elem_of_further | done].
      * intros [?|(l' & [->|?]%elem_of_cons & Hc & Hf)]; [by left;left| |].
        -- left. right. split; [|done].
           destruct Hfile as [Ha _], Hf as [Hb _]. congruence.
        -- right. by exists l'.
    + split.
      * intros [?|(l' & ? & ? & ?)]; [by left|].
        right. exists l'. split; [by apply list_elem_of_further | done].
      * intros [?|(l' & [->|?]%elem_of_cons & Hc & Hf)]; [by left| |].
        -- by apply Hno in Hf.
        -- right. by exists l'.
Qed.

(** When the loop over the links succeeds, a code stands in the set of a
    tactic exactly when some link of that code has this tactic as its
    effective tactic; nothing else is ever filed. *)
Theorem tactic_codes_filed (ix : code_index) (qs : list quote)
    (links : list ilink_el) (tcs : list (string * gset string))
    (t c : string) :
  tactic_codes ix qs links = Ok tcs ->
  filed tcs t c <->
  exists link, link ∈ links /\ l_obj link = c /\ files_under ix qs link t.
Proof.
  intros Hf. rewrite (tactic_codes_fold_filed _ _ _ _ _ _ _ Hf).
  split; [|by right]. intros [(? & ? & _)|?]; done.
Qed.

Lemma tactic_codes_filed_witness :
  filed [("1", {["c1"]}); ("10", {["c2"; "c3"]}); ("9", {["c4"; "c2"]})]
    "9" "c4"
  <-> exists link,
        link ∈ doc_codings paper_example /\ l_obj link = "c4"
        /\ files_under (build_code_index (doc_codes paper_example))
             (quotes paper_example) link "9".
Proof.
  apply (tactic_codes_filed (build_code_index (doc_codes paper_example))
           (quotes paper_example) (doc_codings paper_example)).
  vm_compute. reflexivity.
Defined.

Lemma dict_set_same {V} (k : string) (v : V) d :
  dict_get k d = Some v -> dict_set k v d = d.
Proof.
  induction d as [|[k' v'] d IH]; simpl; [done|].
  destruct (decide (k' = k)) as [->|Hne].
  - by intros [= ->].
  - intros Hget. by rewrite IH.
Qed.

Lemma add_code_filed tcs t c : filed tcs t c -> add_code t c tcs = tcs.
Proof.
  intros (cids & Hget & Hc). unfold add_code. rewrite Hget.
  apply dict_set_same. rewrite Hget. f_equal.
  symmetry. apply subseteq_union_1_L. by apply singleton_subseteq_l.
Qed.

Lemma tactic_codes_fold_resolved ix qs links acc tcs link :
  fold_result (link_step ix qs) acc links = Ok tcs ->
  link ∈ links ->
  exists tac, effective_tactic ix qs link = Ok tac.
Proof.
  revert acc. induction links as [|l links IH]; intros acc; simpl.
  - by intros _ ?%elem_of_nil.
  - destruct (link_step ix qs acc l) as [acc'|] eqn:El; simpl; [|done].
    intros Hf [->|Hin]%elem_of_cons; [|by eapply IH].
    unfold link_step in El.
    destruct (effective_tactic ix qs l) as [tac|]; [by eexists | done].
Qed.

(** A coding that repeats an earlier one adds nothing: processing a link
    again after a list that already holds it gives the same mapping (or the
    same failure). *)
Theorem repeated_link_changes_nothing (ix : code_index) (qs : list quote)
    (links : list ilink_el) (link : ilink_el) :
  link ∈ links ->
  tactic_codes ix qs (links ++ [link]) = tactic_codes ix qs links.
Proof.
  intros Hin. unfold tactic_codes. rewrite fold_result_app.
  destruct (fold_result (link_step ix qs) [] links) as [tcs|e] eqn:Ef;
    simpl; [|done].
  destruct (link_step ix qs tcs link) as [tcs'|e] eqn:El; simpl.
  - f_equal. apply link_step_inv in El as [(t & Hfile & ->)|[_ ->]]; [|done].
    apply add_code_filed.
    apply (tactic_codes_fold_filed _ _ _ _ _ _ _ Ef). right. by exists link.
  - exfalso.
    destruct (tactic_codes_fold_resolved _ _ _ _ _ _ Ef Hin) as [tac Htac].
    unfold link_step in El. rewrite Htac in El. simpl in El.
    destruct tac as [t|]; [destruct (Str.truthy t)|]; done.
Qed.

Lemma repeated_link_changes_nothing_witness :
  tactic_codes (build_code_index (doc_codes paper_example))
    (quotes paper_example) (doc_codings paper_example ++ [ILink "c2" "q4"])
  = tactic_codes (build_code_index (doc_codes paper_example))
      (quotes paper_example) (doc_codings paper_example).
Proof.
  apply (repeated_link_changes_nothing
           (build_code_index (doc_codes paper_example))
           (quotes paper_example) (doc_codings paper_example)
           (ILink "c2" "q4")).
  apply list_elem_of_further, list_elem_of_here.
Defined.

(** ** The tactic keys *)

Lemma marker_tactic_digits name t :
  marker_tactic name = Some t ->
  t <> "" /\ forallb Str.is_digit (Str.chars t) = true.
Proof.
  unfold marker_tactic, Re.search.
  destruct (Re.search_from _ _ _) as [m|] eqn:Es; [|done].
  intros [= <-]. apply search_from_spec in Es as (i & _ & _ & Hm & _).
  apply match_marker_elim in Hm as (_ & _ & Hne & Hds).
  rewrite list_ascii_of_string_of_list_ascii. split; [|done].
  by destruct (Re.m_group1 m).
Qed.

Lemma scan_titles_elem tqs n t :
  scan_titles tqs n = Some t -> exists tq, tq ∈ tqs /\ tactic tq = Some t.
Proof.
  induction tqs as [|tq tqs IH]; simpl; [done|].
  destruct (order tq <=? n)%nat.
  - intros Ht. exists tq. split; [apply list_elem_of_here | done].
  - intros (tq' & ? & ?)%IH. exists tq'.
    split; [by apply list_elem_of_further | done].
Qed.

Lemma effective_tactic_digits codes doc link t :
  effective_tactic (build_code_index codes) (quotes doc) link = Ok (Some t) ->
  t <> "" /\ forallb Str.is_digit (Str.chars t) = true.
Proof.
  unfold effective_tactic.
  assert (find_tactic_for (quotes doc) (l_qRef link) = Ok (Some t) ->
          t <> "" /\ forallb Str.is_digit (Str.chars t) = true) as Hfind.
  { unfold find_tactic_for.
    destruct (quotes_by_id (quotes doc) !! l_qRef link); [|done].
    intros [= (tq & Hin & Ht)%scan_titles_elem].
    apply list_elem_of_In, in_rev, list_elem_of_In in Hin.
    apply title_quotes_elem in Hin as [Hin _].
    apply enumerate_quotes_tactic in Hin as (el & _ & Hel).
    rewrite Hel in Ht. by apply marker_tactic_digits in Ht. }
  destruct (code_to_tactic_override (build_code_index codes) !! l_obj link)
    as [t'|] eqn:Eo; [|done].
  destruct (Str.truthy t'); [|done].
  intros [= ->]. by apply code_index_overrides in Eo as (_ & ? & ?).
Qed.

Lemma tactic_codes_keys codes doc links tcs t cids :
  tactic_codes (build_code_index codes) (quotes doc) links = Ok tcs ->
  (t, cids) ∈ tcs ->
  t <> "" /\ forallb Str.is_digit (Str.chars t) = true /\ cids <> ∅.
Proof.
  unfold tactic_codes.
  assert (forall acc,
    (forall t cids, (t, cids) ∈ acc ->
       t <> "" /\ forallb Str.is_digit (Str.chars t) = true /\ cids <> ∅) ->
    fold_result (link_step (build_code_index codes) (quotes doc))
      acc links = Ok tcs ->
    forall t cids, (t, cids) ∈ tcs ->
       t <> "" /\ forallb Str.is_digit (Str.chars t) = true /\ cids <> ∅)
    as Hfold.
  { clear t cids. induction links as [|l links IH]; intros acc Hacc; simpl.
    - by intros [= <-].
    - destruct (link_step _ _ acc l) as [acc'|] eqn:El; simpl; [|done].
      apply IH. apply link_step_inv in El as [(t0 & [Heff _] & ->)|[_ ->]];
        [|done].
      apply effective_tactic_digits in Heff as [Hne Hd].
      intros t cids. unfold add_code.
      destruct (dict_get t0 acc) as [cids0|];
        intros [[= -> ->]|Hin]%dict_set_elem; try by apply Hacc.
      + split_and!; [done..|].
        apply non_empty_union_L. left. apply non_empty_singleton_L.
      + split_and!; [done..|]. apply non_empty_singleton_L. }
  intros Hf. apply (Hfold [] ltac:(by intros ? ? ?%elem_of_nil) Hf).
Qed.

(** The mapping the aggregator returns is well formed: no tactic occurs
    twice, every tactic is a non-empty string of digits, and no code set is
    empty. *)
Theorem tactic_codes_well_formed (doc : document)
    (tcs : list (string * gset string)) :
  tactic_codes (build_code_index (doc_codes doc)) (quotes doc)
    (doc_codings doc) = Ok tcs ->
  NoDup (map fst tcs)
  /\ forall t cids, (t, cids) ∈ tcs ->
       t <> "" /\ forallb Str.is_digit (Str.chars t) = true
       /\ cids <> ∅.
Proof.
  intros Htcs. split; [by eapply tactic_codes_NoDup|].
  intros t cids. by apply (tactic_codes_keys _ _ _ _ _ _ Htcs).
Qed.

Lemma tactic_codes_well_formed_witness :
  NoDup (map fst [("1", ({["c1"]} : gset string)); ("10", {["c2"; "c3"]});
                  ("9", {["c4"; "c2"]})])
  /\ forall t cids,
       (t, cids) ∈ [("1", ({["c1"]} : gset string)); ("10", {["c2"; "c3"]});
                    ("9", {["c4"; "c2"]})] ->
       t <> "" /\ forallb Str.is_digit (Str.chars t) = true
       /\ cids <> ∅.
Proof.
  apply (tactic_codes_well_formed paper_example).
  vm_compute. reflexivity.
Defined.

(** ** Step 6: the outcome of a cell, the shape of the rows *)

Lemma cell_raise names cids fam_code_ids e :
  cell names cids fam_code_ids = Raise e ->
  exists c, e = KeyError c /\ c ∈ cids /\ c ∈ fam_code_ids
            /\ names !! c = None.
Proof.
  destruct (hits_spec cids fam_code_ids) as (_ & _ & Hm). unfold cell.
  destruct (hits cids fam_code_ids) as [|h hs] eqn:Eh; [done|].
  destruct (map_result (name_of names) (h :: hs)) as [ns|e'] eqn:Em;
    simpl; [done|].
  intros [= <-]. apply map_result_fails in Em as (c & Hc & Hn).
  apply Hm in Hc as [? ?]. unfold name_of in Hn.
  destruct (names !! c) eqn:En; [done|]. injection Hn as <-.
  by exists c.
Qed.

(** A cell is computed when every code common to the tactic and the family
    has a name in the index, and only then; otherwise the cell raises
    [KeyError] with such a code id.  With no common code the cell is the
    empty string, and no name is looked up. *)
Theorem cell_outcome (names : gmap string string) (cids : gset string)
    (fam_code_ids : list string) :
  ((exists s, cell names cids fam_code_ids = Ok s) <->
   forall c, c ∈ cids -> c ∈ fam_code_ids -> is_Some (names !! c))
  /\ (forall e, cell names cids fam_code_ids = Raise e ->
        exists c, e = KeyError c /\ c ∈ cids /\ c ∈ fam_code_ids
                  /\ names !! c = None)
  /\ ((forall c, c ∈ cids -> c ∉ fam_code_ids) ->
      cell names cids fam_code_ids = Ok "").
Proof.
  destruct (hits_spec cids fam_code_ids) as (_ & _ & Hm).
  split_and!; [|apply cell_raise|].
  - split.
    + intros [s Hs] c Hc Hf. destruct (names !! c) eqn:En; [done|].
      exfalso. apply cell_ok in Hs as (ns & Hns & _).
      assert (c ∈ hits cids fam_code_ids) as Hin by by apply Hm.
      apply list_elem_of_lookup in Hin as [i Hi].
      destruct (Forall2_lookup_l _ _ _ _ _ Hns Hi) as (n & _ & Hn).
      congruence.
    + intros Hall. destruct (cell names cids fam_code_ids) as [s|e] eqn:Ec;
        [by eexists|].
      destruct (cell_raise _ _ _ _ Ec) as (c & _ & Hc & Hf & Hn).
      destruct (Hall c Hc Hf) as [n Hsome]. congruence.
  - intros Hdisj. unfold cell.
    destruct (hits cids fam_code_ids) as [|h hs] eqn:Eh; [done|].
    exfalso. destruct (Hm h) as [Hh _].
    destruct Hh as [Hc Hf]; [apply list_elem_of_here|]. by apply (Hdisj h).
Qed.

Lemma add_labels_app seen new :
  NoDup (seen ++ new) -> add_labels seen new = seen ++ new.
Proof.
  revert seen. induction new as [|c new IH]; intros seen Hnd; simpl.
  - by rewrite app_nil_r.
  - apply NoDup_app in Hnd as Hparts. destruct Hparts as (_ & Hdisj & _).
    rewrite decide_False.
    + rewrite IH; rewrite <- app_assoc; done.
    + intros Hin. apply (Hdisj c Hin), list_elem_of_here.
Qed.

Lemma add_labels_NoDup seen new :
  NoDup seen -> NoDup (add_labels seen new).
Proof.
  revert seen. induction new as [|c new IH]; intros seen Hnd; simpl; [done|].
  apply IH. destruct (decide (c ∈ seen)) as [|Hnin]; [done|].
  apply NoDup_app. split_and!; [done| |apply NoDup_singleton].
  by intros x Hx ->%list_elem_of_singleton.
Qed.

Lemma build_row_labels names cids fams row0 row :
  fold_result (row_step names cids) row0 fams = Ok row ->
  map fst row = add_labels (map fst row0) (map (fun f => f.2.1) fams).
Proof.
  revert row0. induction fams as [|[fid [fname members]] fams IH];
    intros row0; simpl.
  - by intros [= <-].
  - destruct (cell names cids members) as [s|]; simpl; [|done].
    intros Hf. rewrite (IH _ Hf). by rewrite dict_set_keys.
Qed.

Lemma build_output_labels names fams tcs out0 out :
  fold_result (output_step names fams) out0 tcs = Ok out ->
  map fst out = add_labels (map fst out0) (map fst tcs).
Proof.
  revert out0. induction tcs as [|[t cids] tcs IH]; intros out0; simpl.
  - by intros [= <-].
  - unfold output_step at 1. simpl.
    destruct (build_row names fams cids) as [row|]; simpl; [|done].
    intros Hf. rewrite (IH _ Hf). by rewrite dict_set_keys.
Qed.

Lemma build_output_rows names fams tcs out0 out r :
  fold_result (output_step names fams) out0 tcs = Ok out ->
  r ∈ out ->
  r ∈ out0 \/ exists cids, build_row names fams cids = Ok r.2.
Proof.
  revert out0. induction tcs as [|[t cids] tcs IH]; intros out0; simpl.
  - intros [= <-]. by left.
  - unfold output_step at 1. simpl.
    destruct (build_row names fams cids) as [row|] eqn:Er; simpl; [|done].
    intros Hf Hr.
    destruct (IH _ Hf Hr) as [[->|?]%dict_set_elem|?]; [|by left|by right].
    right. by exists cids.
Qed.

Lemma output_row_labels names fams tcs out t row :
  build_output names fams tcs = Ok out ->
  (t, row) ∈ out ->
  map fst row = add_labels [] (map (fun f => f.2.1) fams).
Proof.
  intros Hout Hin.
  destruct (build_output_rows _ _ _ _ _ _ Hout Hin) as [?%elem_of_nil|Hrow];
    [done|].
  destruct Hrow as [cids Hrow]. simpl in Hrow.
  by apply build_row_labels in Hrow.
Qed.

Lemma output_labels names fams tcs out :
  build_output names fams tcs = Ok out ->
  NoDup (map fst tcs) ->
  map fst out = map fst tcs.
Proof.
  intros Hout Hnd. unfold build_output in Hout.
  rewrite (build_output_labels _ _ _ _ _ Hout). by apply (add_labels_app []).
Qed.

(** The output mapping has one row per tactic, in the order of the tactics,
    and every row has the same keys: the family names, each once, in the
    order in which the families first bring them.  No cell is ever left
    out of a row. *)
Theorem output_shape (doc : document) (tcs : list (string * gset string))
    (out : list (string * list (string * string))) :
  tactic_codes (build_code_index (doc_codes doc)) (quotes doc)
    (doc_codings doc) = Ok tcs ->
  build_output (code_to_name (build_code_index (doc_codes doc)))
    (families doc) tcs = Ok out ->
  map fst out = map fst tcs
  /\ forall t row, (t, row) ∈ out ->
       map fst row = add_labels [] (map (fun f => f.2.1) (families doc)).
Proof.
  intros Htcs Hout. split.
  - apply (output_labels _ _ _ _ Hout). by eapply tactic_codes_NoDup.
  - intros t row Hin. by eapply output_row_labels.
Qed.

Lemma output_shape_witness :
  map fst
    [("1", [("1. Title", "Zeta"); ("5. Context", ""); ("Unlisted", "Zeta")]);
     ("10", [("1. Title", "Alpha"); ("5. Context", "Alpha; Cache");
             ("Unlisted", "")]);
     ("9", [("1. Title", "Alpha"); ("5. Context", "Alpha; Pool");
            ("Unlisted", "")])]
  = map fst [("1", ({["c1"]} : gset string)); ("10", {["c2"; "c3"]});
             ("9", {["c4"; "c2"]})]
  /\ forall t row,
       (t, row) ∈
         [("1", [("1. Title", "Zeta"); ("5. Context", "");
                 ("Unlisted", "Zeta")]);
          ("10", [("1. Title", "Alpha"); ("5. Context", "Alpha; Cache");
                  ("Unlisted", "")]);
          ("9", [("1. Title", "Alpha"); ("5. Context", "Alpha; Pool");
                 ("Unlisted", "")])] ->
       map fst row
       = add_labels [] (map (fun f => f.2.1) (families paper_example)).
Proof.
  apply (output_shape paper_example); vm_compute; reflexivity.
Defined.

(** ** Step 7: from the output mapping to the table *)

Lemma dict_get_Some_elem {V} (k : string) (v : V) d :
  dict_get k d = Some v -> (k, v) ∈ d.
Proof.
  induction d as [|[k' v'] d IH]; simpl; [done|].
  destruct (decide (k' = k)) as [->|Hne].
  - intros [= ->]. apply list_elem_of_here.
  - intros Hget. by apply list_elem_of_further, IH.
Qed.

Lemma dict_get_is_Some {V} (k : string) (d : list (string * V)) :
  is_Some (dict_get k d) <-> k ∈ map fst d.
Proof.
  induction d as [|[k' v'] d IH]; simpl.
  - split; [by intros [? ?] | by intros ?%elem_of_nil].
  - destruct (decide (k' = k)) as [->|Hne].
    + split; [intros _; apply list_elem_of_here | by eexists].
    + rewrite IH, elem_of_cons. intuition congruence.
Qed.

(** Reading a frame made by [from_dict] under new column labels is reading
    the rows of the mapping under these labels. *)
Lemma reindex_from_dict_rows how new_columns out i cells :
  (i, cells) ∈ df_rows (reindex new_columns (from_dict how out)) ->
  exists row, dict_get i out = Some row
    /\ cells = map (fun c => dict_get c row) new_columns.
Proof.
  unfold reindex. cbn [df_rows].
  intros ([i' cells0] & Heq & Hin)%list_elem_of_fmap.
  cbn [fst snd] in Heq. injection Heq as Hi Hcells. subst i' cells.
  assert (is_Some (dict_get i out)) as [row Hrow].
  { apply dict_get_is_Some.
    apply (from_dict_labels_keys how).
    apply list_elem_of_fmap. by exists (i, cells0). }
  exists row. split; [done|].
  unfold from_dict in Hin. cbn [df_rows] in Hin.
  apply list_elem_of_fmap in Hin as (i' & Heq & _).
  injection Heq as Hi Hcells. subst i' cells0. rewrite Hrow.
  change (df_columns (from_dict how out))
    with (union_labels (fun r : string * list (string * string) =>
                          map fst r.2) out).
  apply map_ext_in. intros c _.
  destruct (decide (c ∈ union_labels
              (fun r : string * list (string * string) => map fst r.2) out))
    as [Hc|Hc].
  - by rewrite cell_at_map.
  - rewrite cell_at_absent by done. symmetry.
    destruct (dict_get c row) as [v|] eqn:Ev; [|done].
    exfalso. apply Hc, union_labels_elem. exists (i, row).
    split; [by apply dict_get_Some_elem|]. simpl.
    apply dict_get_is_Some. by eexists.
Qed.

(** Every row of the table is a row of the output mapping read under the
    twelve headers: the cell under a header is the cell of the family of
    that name, and is missing exactly when no family of the family mapping
    has that name. *)
Theorem table_rows_from_output (how : index_rule) (doc : document)
    (tcs : list (string * gset string))
    (out : list (string * list (string * string))) (df : data_frame)
    (t : string) (cells : list (option string)) :
  tactic_codes (build_code_index (doc_codes doc)) (quotes doc)
    (doc_codings doc) = Ok tcs ->
  build_output (code_to_name (build_code_index (doc_codes doc)))
    (families doc) tcs = Ok out ->
  run how doc = Ok df ->
  (t, cells) ∈ df_rows df ->
  exists row, dict_get t out = Some row
    /\ cells = map (fun c => dict_get c row) cols
    /\ forall c, is_Some (dict_get c row) <->
                 c ∈ map (fun f => f.2.1) (families doc).
Proof.
  intros Htcs Hout Hrun Hin. unfold run in Hrun.
  rewrite Htcs in Hrun. simpl in Hrun. rewrite Hout in Hrun. simpl in Hrun.
  apply sort_index_ok in Hrun as [_ Hperm]. rewrite Hperm in Hin.
  apply reindex_from_dict_rows in Hin as (row & Hrow & ->).
  exists row. split_and!; [done..|]. intros c.
  apply dict_get_Some_elem in Hrow.
  rewrite dict_get_is_Some, (output_row_labels _ _ _ _ _ _ Hout Hrow).
  rewrite add_labels_elem, elem_of_nil. tauto.
Qed.

Lemma table_rows_from_output_witness :
  exists row,
    dict_get "9"
      [("1", [("1. Title", "Zeta"); ("5. Context", ""); ("Unlisted", "Zeta")]);
       ("10", [("1. Title", "Alpha"); ("5. Context", "Alpha; Cache");
               ("Unlisted", "")]);
       ("9", [("1. Title", "Alpha"); ("5. Context", "Alpha; Pool");
              ("Unlisted", "")])] = Some row
    /\ [Some "Alpha"; None; None; None; Some "Alpha; Pool"; None; None; None;
        None; None; None; None]
       = map (fun c => dict_get c row) cols
    /\ forall c, is_Some (dict_get c row) <->
                 c ∈ map (fun f => f.2.1) (families paper_example).
Proof.
  apply (table_rows_from_output FromKeys paper_example
           [("1", {["c1"]}); ("10", {["c2"; "c3"]}); ("9", {["c4"; "c2"]})]
           _
           (DataFrame cols
              [("1", [Some "Zeta"; None; None; None; Some ""; None; None;
                      None; None; None; None; None]);
               ("9", [Some "Alpha"; None; None; None; Some "Alpha; Pool";
                      None; None; None; None; None; None; None]);
               ("10", [Some "Alpha"; None; None; None; Some "Alpha; Cache";
                       None; None; None; None; None; None; None])])
           "9").
  - vm_compute. reflexivity.
  - vm_compute. reflexivity.
  - vm_compute. reflexivity.
  - apply list_elem_of_further, list_elem_of_here.
Defined.

Lemma dict_of_nil {V} (kvs : list (string * V)) :
  dict_of kvs = [] <-> kvs = [].
Proof.
  split; [|by intros ->]. unfold dict_of.
  assert (forall acc,
    fold_left (fun d kv => dict_set kv.1 kv.2 d) kvs acc = [] ->
    acc = [] /\ kvs = []) as Hfold.
  { induction kvs as [|[k v] kvs IH]; intros acc; simpl; [done|].
    intros [Hset _]%IH. exfalso. simpl in Hset.
    destruct acc as [|[k' v'] acc]; simpl in Hset; [done|].
    by destruct (decide (k' = k)). }
  by intros [_ ?]%Hfold.
Qed.

Lemma union_labels_NoDup {X} (f : X -> list string) xs :
  NoDup (union_labels f xs).
Proof.
  unfold union_labels.
  assert (forall seen, NoDup seen ->
            NoDup (fold_left (fun seen x => add_labels seen (f x)) xs seen))
    as Hfold.
  { induction xs as [|x xs IH]; intros seen Hnd; simpl; [done|].
    by apply IH, add_labels_NoDup. }
  apply Hfold. constructor.
Qed.

Lemma frame_labels_NoDup how out :
  NoDup (map fst out) ->
  NoDup (map fst (df_rows (reindex cols (from_dict how out)))).
Proof.
  intros Hnd. rewrite reindex_labels, from_dict_index.
  destruct how; [apply union_labels_NoDup | done].
Qed.

(** In a run on a document with a family, no row of the output mapping is
    empty. *)
Lemma output_row_nonempty doc tcs out t row :
  build_output (code_to_name (build_code_index (doc_codes doc)))
    (families doc) tcs = Ok out ->
  (t, row) ∈ out -> doc_families doc <> [] -> row <> [].
Proof.
  intros Hout Hin Hfams ->.
  pose proof (output_row_labels _ _ _ _ _ _ Hout Hin) as Hk.
  destruct (families doc) as [|fam fams] eqn:Ef.
  - unfold families in Ef. apply (proj1 (dict_of_nil _)) in Ef.
    destruct (doc_families doc); [by apply Hfams | done].
  - simpl in Hk.
    assert (fam.2.1 ∈ add_labels [fam.2.1] (map (fun f => f.2.1) fams))
      as Hin'.
    { apply add_labels_elem. left. apply list_elem_of_here. }
    rewrite <- Hk in Hin'. by apply elem_of_nil in Hin'.
Qed.

(** When the document defines a family, the table has one row per tactic:
    its row labels are the tactic keys, each once. *)
Theorem table_row_per_tactic (how : index_rule) (doc : document)
    (tcs : list (string * gset string)) (df : data_frame) :
  tactic_codes (build_code_index (doc_codes doc)) (quotes doc)
    (doc_codings doc) = Ok tcs ->
  run how doc = Ok df ->
  doc_families doc <> [] ->
  map fst (df_rows df) ≡ₚ map fst tcs /\ NoDup (map fst (df_rows df)).
Proof.
  intros Htcs Hrun Hfams. unfold run in Hrun. rewrite Htcs in Hrun.
  simpl in Hrun.
  destruct (build_output _ _ _) as [out|] eqn:Hout; simpl in Hrun; [|done].
  apply sort_index_ok in Hrun as [_ Hperm].
  pose proof (tactic_codes_NoDup _ _ _ _ Htcs) as Hnd.
  pose proof (output_labels _ _ _ _ Hout Hnd) as Hlabels.
  assert (NoDup (map fst (df_rows (reindex cols (from_dict how out)))))
    as Hnd'.
  { apply frame_labels_NoDup. by rewrite Hlabels. }
  split; [|by rewrite Hperm].
  rewrite Hperm, <- Hlabels.
  apply NoDup_Permutation; [done | by rewrite Hlabels |].
  intros i. split; [apply frame_labels_keys|].
  intros ([i' row] & -> & Hin)%list_elem_of_fmap.
  apply (frame_labels_row how out i' row Hin). right.
  by apply (output_row_nonempty doc tcs out i').
Qed.

Lemma table_row_per_tactic_witness :
  exists df,
    run FromColumns paper_example = Ok df
    /\ map fst (df_rows df)
       ≡ₚ map fst [("1", ({["c1"]} : gset string)); ("10", {["c2"; "c3"]});
                   ("9", {["c4"; "c2"]})]
    /\ NoDup (map fst (df_rows df)).
Proof.
  eexists. split; [vm_compute; reflexivity|].
  apply (table_row_per_tactic FromColumns paper_example);
    [vm_compute; reflexivity | vm_compute; reflexivity | done].
Defined.

(** ** Step 8: the sort key on the keys of the run *)

Lemma digit_not_int_space c :
  Str.is_digit c = true -> PyInt.is_int_space c = false.
Proof. by destruct c as [[] [] [] [] [] [] [] []]. Qed.

Lemma int_strip_digits ds :
  forallb Str.is_digit ds = true -> PyInt.int_strip ds = ds.
Proof.
  intros Hds. unfold PyInt.int_strip.
  assert (rev (Str.drop_while PyInt.is_int_space (rev ds)) = ds) as ->.
  { rewrite drop_while_fixed; [apply rev_involutive|].
    pose proof (forallb_rev Str.is_digit ds) as Hrev. rewrite Hds in Hrev.
    destruct (rev ds) as [|c r]; [done|]. simpl in Hrev.
    apply andb_prop in Hrev as [Hc _]. by apply digit_not_int_space. }
  apply drop_while_fixed. destruct ds as [|c r]; [done|]. simpl in Hds.
  apply andb_prop in Hds as [Hc _]. by apply digit_not_int_space.
Qed.

Lemma digits_of_digits acc prev ds :
  forallb Str.is_digit ds = true ->
  ds <> [] \/ prev = true ->
  PyInt.digits acc prev ds
  = Some (fold_left (fun a c => (10 * a + PyInt.digit_value c)%Z) ds acc).
Proof.
  revert acc prev. induction ds as [|c ds IH]; intros acc prev Hds Hne; simpl.
  - destruct Hne as [?| ->]; done.
  - simpl in Hds. apply andb_prop in Hds as [-> Hds].
    apply IH; [done | by right].
Qed.

Lemma filter_digits ds :
  forallb Str.is_digit ds = true -> List.filter Str.is_digit ds = ds.
Proof.
  induction ds as [|c ds IH]; simpl; [done|].
  intros [-> Hds]%andb_prop. by rewrite IH.
Qed.

Lemma chars_length (t : string) : length (Str.chars t) = String.length t.
Proof. induction t as [|c t IH]; simpl; [done | by rewrite IH]. Qed.

(** On a string of digits, [int] gives the decimal value when the digits
    are at most 4300, and refuses the string when they are more. *)
Lemma parse_digits (t : string) :
  t <> "" -> forallb Str.is_digit (Str.chars t) = true ->
  PyInt.parse t
  = if (String.length t <=? PyInt.max_str_digits)%nat
    then Some (decimal (Str.chars t)) else None.
Proof.
  intros Hne Hds. unfold PyInt.parse, decimal.
  rewrite int_strip_digits by done.
  assert (PyInt.literal (Str.chars t)
          = if (String.length t <=? PyInt.max_str_digits)%nat
            then Some (fold_left
                         (fun a c => (10 * a + PyInt.digit_value c)%Z)
                         (Str.chars t) 0%Z)
            else None) as Hlit.
  { unfold PyInt.literal. rewrite filter_digits, chars_length by done.
    destruct (_ <=? _)%nat; [|done].
    apply digits_of_digits; [done|]. left. by destruct t. }
  destruct (Str.chars t) as [|c ds] eqn:Et.
  - destruct t; done.
  - rewrite <- Hlit. simpl in Hds. apply andb_prop in Hds as [Hc _].
    by destruct c as [[] [] [] [] [] [] [] []].
Qed.

Lemma decimal_fold_nonneg ds acc :
  forallb Str.is_digit ds = true -> (0 <= acc)%Z ->
  (0 <= fold_left (fun a c => (10 * a + PyInt.digit_value c)%Z) ds acc)%Z.
Proof.
  revert acc. induction ds as [|c ds IH]; intros acc Hds Hacc; simpl; [done|].
  simpl in Hds. apply andb_prop in Hds as [Hc Hds]. apply IH; [done|].
  assert (0 <= PyInt.digit_value c)%Z; [|lia].
  by destruct c as [[] [] [] [] [] [] [] []].
Qed.

Lemma astype_int_digits (t : string) :
  t <> "" -> forallb Str.is_digit (Str.chars t) = true ->
  PyInt.astype_int t
  = if (String.length t <=? PyInt.max_str_digits)%nat
    then if (decimal (Str.chars t) <? 2 ^ 63)%Z
         then Ok (decimal (Str.chars t))
         else Raise (OverflowError t)
    else Raise (ValueError t).
Proof.
  intros Hne Hds. unfold PyInt.astype_int. rewrite parse_digits by done.
  destruct (_ <=? _)%nat; [|done].
  pose proof (decimal_fold_nonneg _ 0 Hds ltac:(done)) as Hpos.
  fold (decimal (Str.chars t)) in Hpos.
  destruct (Z.leb_spec (- 2 ^ 63) (decimal (Str.chars t))); [done|lia].
Qed.

(** ** Step 8: a key that is no integer *)



(** ** The ways a run can fail *)

Lemma fold_result_raise_inv {A S} (f : S -> A -> result S) acc l e :
  fold_result f acc l = Raise e ->
  exists acc' a, a ∈ l /\ f acc' a = Raise e.
Proof.
  revert acc. induction l as [|x l IH]; intros acc; simpl; [done|].
  destruct (f acc x) as [acc'|e'] eqn:Ex; simpl.
  - intros (acc'' & a & Ha & Hf)%IH. exists acc'', a.
    split; [by apply list_elem_of_further | done].
  - intros [= <-]. exists acc, x. split; [apply list_elem_of_here | done].
Qed.

Lemma dict_get_NoDup {V} (k : string) (v : V) d :
  NoDup (map fst d) -> (k, v) ∈ d -> dict_get k d = Some v.
Proof.
  induction d as [|[k' v'] d IH]; simpl; [by intros _ ?%elem_of_nil|].
  intros [Hnin Hnd]%NoDup_cons [[= -> ->]|Hin]%elem_of_cons.
  - by rewrite decide_True.
  - rewrite decide_False; [by apply IH|]. intros ->. apply Hnin.
    apply list_elem_of_fmap. by exists (k, v).
Qed.

Lemma run_raise_cases (how : index_rule) (doc : document) (e : exn) :
  run how doc = Raise e ->
  (exists link, link ∈ doc_codings doc
     /\ e = KeyError (l_qRef link)
     /\ (l_qRef link ∉ map q_id (doc_quotations doc))
     /\ (code_to_tactic_override (build_code_index (doc_codes doc))
           !! l_obj link) = None)
  \/ (exists link fam, link ∈ doc_codings doc /\ fam ∈ families doc
       /\ e = KeyError (l_obj link)
       /\ l_obj link ∈ fam.2.2
       /\ l_obj link ∉ map c_id (doc_codes doc))
  \/ (exists link t, link ∈ doc_codings doc
       /\ files_under (build_code_index (doc_codes doc)) (quotes doc) link t
       /\ e = ValueError t
       /\ (PyInt.max_str_digits < String.length t)%nat)
  \/ (exists link t, link ∈ doc_codings doc
       /\ files_under (build_code_index (doc_codes doc)) (quotes doc) link t
       /\ e = OverflowError t
       /\ (String.length t <= PyInt.max_str_digits)%nat
       /\ (2 ^ 63 <= decimal (Str.chars t))%Z).
Proof.
  unfold run.
  destruct (tactic_codes _ _ _) as [tcs|e'] eqn:Htcs; simpl.
  2:{ intros [= ->]. left. unfold tactic_codes in Htcs.
      apply fold_result_raise_inv in Htcs as (acc & link & Hin & Hstep).
      exists link. unfold link_step, effective_tactic in Hstep.
      destruct (code_to_tactic_override _ !! l_obj link) as [t|] eqn:Eo.
      { rewrite (override_truthy _ _ _ Eo) in Hstep. simpl in Hstep.
        by rewrite (override_truthy _ _ _ Eo) in Hstep. }
      unfold find_tactic_for in Hstep.
      destruct (quotes_by_id (quotes doc) !! l_qRef link) eqn:Eq;
        simpl in Hstep.
      { destruct (scan_titles _ _) as [t|]; [destruct (Str.truthy t)|];
          done. }
      injection Hstep as <-. split_and!; [done..| |done].
      apply quotes_by_id_none in Eq. unfold quotes in Eq.
      by rewrite enumerate_quotes_ids in Eq. }
  pose proof (tactic_codes_NoDup _ _ _ _ Htcs) as Hnd.
  destruct (build_output _ _ _) as [out|e'] eqn:Hout; simpl.
  2:{ intros [= ->]. right. left. unfold build_output in Hout.
      apply fold_result_raise_inv in Hout as (acc & [t cids] & Hin & Hstep).
      unfold output_step in Hstep. simpl in Hstep.
      destruct (build_row _ _ cids) as [row|e'] eqn:Hrow; [done|].
      simpl in Hstep. injection Hstep as ->. unfold build_row in Hrow.
      apply fold_result_raise_inv in Hrow
        as (row & [fid [fname members]] & Hfam & Hcell).
      unfold row_step in Hcell.
      destruct (cell _ cids members) as [s|e'] eqn:Ec; [done|].
      simpl in Hcell. injection Hcell as ->.
      apply cell_raise in Ec as (c & -> & Hc & Hm & Hn).
      assert (filed tcs t c) as Hfiled.
      { exists cids. split; [by apply dict_get_NoDup | done]. }
      apply (tactic_codes_fold_filed _ _ _ _ _ _ _ Htcs) in Hfiled
        as [(? & ? & _)|(link & Hlink & <- & _)]; [done|].
      exists link, (fid, (fname, members)). split_and!; [done..|].
      intros Hdef. apply code_index_names in Hdef as [n Hsome]. congruence. }
  intros Hsort. right. right. unfold sort_index in Hsort.
  destruct (map_result _ _) as [keys|e'] eqn:Hkeys; simpl in Hsort; [done|].
  injection Hsort as ->.
  apply map_result_fails in Hkeys as (t & Ht & Hconv).
  apply frame_labels_keys in Ht.
  rewrite (output_labels _ _ _ _ Hout Hnd) in Ht.
  apply list_elem_of_fmap in Ht as ([t' cids] & -> & Hin). simpl in *.
  destruct (tactic_codes_keys _ _ _ _ _ _ Htcs Hin) as (Hne & Hds & Hcids).
  apply set_choose_L in Hcids as [c Hc].
  assert (filed tcs t' c) as Hfiled.
  { exists cids. split; [by apply dict_get_NoDup | done]. }
  apply (tactic_codes_fold_filed _ _ _ _ _ _ _ Htcs) in Hfiled
    as [(? & ? & _)|(link & Hlink & _ & Hfiles)]; [done|].
  rewrite astype_int_digits in Hconv by done.
  destruct (Nat.leb_spec (String.length t') PyInt.max_str_digits).
  - right. exists link, t'.
    destruct (Z.ltb_spec (decimal (Str.chars t')) (2 ^ 63)); [done|].
    injection Hconv as <-. done.
  - left. exists link, t'. injection Hconv as <-. done.
Qed.

(** Steps 2 to 8, on a document whose elements have the attributes that
    are read, fail in one of four ways only: a link whose code has no
    override names a quotation that the document does not have; a code that
    is filed under a tactic and listed in a family has no definition; a
    tactic number has more digits than [int] converts; or a tactic number
    of fewer digits is too large for the 64-bit sort key.  Every failure of
    the sort is of a key made of digits only. *)
Theorem run_failures (how : index_rule) (doc : document) (e : exn) :
  run how doc = Raise e ->
  (exists link, link ∈ doc_codings doc
     /\ e = KeyError (l_qRef link)
     /\ (l_qRef link ∉ map q_id (doc_quotations doc))
     /\ (code_to_tactic_override (build_code_index (doc_codes doc))
           !! l_obj link) = None)
  \/ (exists link fam, link ∈ doc_codings doc /\ fam ∈ families doc
       /\ e = KeyError (l_obj link)
       /\ l_obj link ∈ fam.2.2
       /\ l_obj link ∉ map c_id (doc_codes doc))
  \/ (exists link t, link ∈ doc_codings doc
       /\ files_under (build_code_index (doc_codes doc)) (quotes doc) link t
       /\ e = ValueError t
       /\ (PyInt.max_str_digits < String.length t)%nat)
  \/ (exists link t, link ∈ doc_codings doc
       /\ files_under (build_code_index (doc_codes doc)) (quotes doc) link t
       /\ e = OverflowError t
       /\ (String.length t <= PyInt.max_str_digits)%nat
       /\ (2 ^ 63 <= decimal (Str.chars t))%Z).
Proof. apply run_raise_cases. Qed.

Lemma run_failures_witness :
  exists link,
    link ∈ [ILink "c2" "nowhere"]
    /\ KeyError "nowhere" = KeyError (l_qRef link)
    /\ (l_qRef link ∉ map q_id [Q "q0" "Title (AT1)"])
    /\ (code_to_tactic_override (build_code_index [Code "c2" "Alpha"])
          !! l_obj link) = None.
Proof.
  destruct (run_failures FromKeys
              (Document [Code "c2" "Alpha"] [Q "q0" "Title (AT1)"] []
                 [ILink "c2" "nowhere"])
              (KeyError "nowhere") ltac:(vm_compute; reflexivity))
    as [Hq|[(link & fam & _ & Hfam & _)
           |[(link & t & _ & _ & Heq & _)|(link & t & _ & _ & Heq & _)]]].
  - exact Hq.
  - exfalso. vm_compute in Hfam. by apply elem_of_nil in Hfam.
  - discriminate Heq.
  - discriminate Heq.
Defined.

(** Steps 2 to 8 go through, and the sorted frame is there to be written,
    on a document in which every link without an override names a quotation
    of the document, every linked code listed in a family is defined, and
    every tactic has at most 4300 digits and fits the 64-bit sort key. *)
Theorem run_succeeds (how : index_rule) (doc : document) :
  (forall link, link ∈ doc_codings doc ->
     (code_to_tactic_override (build_code_index (doc_codes doc))
        !! l_obj link) = None ->
     l_qRef link ∈ map q_id (doc_quotations doc)) ->
  (forall link fam, link ∈ doc_codings doc -> fam ∈ families doc ->
     l_obj link ∈ fam.2.2 -> l_obj link ∈ map c_id (doc_codes doc)) ->
  (forall link t, link ∈ doc_codings doc ->
     files_under (build_code_index (doc_codes doc)) (quotes doc) link t ->
     (String.length t <= PyInt.max_str_digits)%nat
     /\ (decimal (Str.chars t) < 2 ^ 63)%Z) ->
  exists df, run how doc = Ok df.
Proof.
  intros Hq Hc Ht. destruct (run how doc) as [df|e] eqn:Hrun; [by eexists|].
  exfalso.
  apply run_raise_cases in Hrun
    as [(link & Hin & _ & Hnin & Hov)
       |[(link & fam & Hin & Hfam & _ & Hmem & Hnin)
        |[(link & t & Hin & Hfiles & _ & Hlong)
         |(link & t & Hin & Hfiles & _ & _ & Hbig)]]].
  - by apply Hnin, Hq.
  - by apply Hnin, (Hc link fam).
  - destruct (Ht link t Hin Hfiles) as [Hlen _]. lia.
  - destruct (Ht link t Hin Hfiles) as [_ Hlt]. lia.
Qed.

Lemma run_succeeds_witness :
  exists df, run FromColumns unsorted_names_example = Ok df.
Proof.
  apply (run_succeeds FromColumns unsorted_names_example).
  - intros link Hin Hov. exfalso. revert Hov.
    apply elem_of_cons in Hin as [->|Hin];
      [|apply list_elem_of_singleton in Hin as ->]; by vm_compute.
  - intros link fam Hin _ _.
    apply elem_of_cons in Hin as [->|Hin];
      [|apply list_elem_of_singleton in Hin as ->]; simpl.
    + apply list_elem_of_here.
    + apply list_elem_of_further, list_elem_of_here.
  - intros link t Hin [Heff _].
    apply elem_of_cons in Hin as [->|Hin];
      [|apply list_elem_of_singleton in Hin as ->];
      vm_compute in Heff; injection Heff as <-;
      (split; [unfold PyInt.max_str_digits; simpl; lia | by vm_compute]).
Defined.

(** ** Step 4: the family mapping *)

Lemma dict_of_fold_other {V} (kvs : list (string * V)) acc (k : string) :
  k ∉ map fst kvs ->
  dict_get k (fold_left (fun d kv => dict_set kv.1 kv.2 d) kvs acc)
  = dict_get k acc.
Proof.
  revert acc. induction kvs as [|[k' v'] kvs IH]; intros acc; simpl; [done|].
  intros [Hne Hnin]%not_elem_of_cons. rewrite IH by done.
  by apply dict_get_set_ne.
Qed.

Lemma dict_of_fold_NoDup {V} (kvs : list (string * V)) acc :
  NoDup (map fst acc) ->
  NoDup (map fst (fold_left (fun d kv => dict_set kv.1 kv.2 d) kvs acc)).
Proof.
  revert acc. induction kvs as [|[k v] kvs IH]; intros acc Hnd; simpl; [done|].
  by apply IH, dict_set_NoDup.
Qed.

(** The family mapping has one entry per family id.  When several families
    share an id, the entry holds the name and the members of the last of
    them; the earlier ones are lost. *)
Theorem families_last_wins (doc : document) (l1 l2 : list family_el)
    (cf : family_el) :
  doc_families doc = l1 ++ cf :: l2 ->
  cf_id cf ∉ map cf_id l2 ->
  dict_get (cf_id cf) (families doc) = Some (cf_name cf, cf_items cf)
  /\ NoDup (map fst (families doc)).
Proof.
  intros Hdoc Hlast. unfold families, dict_of. split.
  - rewrite Hdoc, map_app, fold_left_app. simpl.
    rewrite dict_of_fold_other; [apply dict_get_set_eq|].
    by rewrite map_map.
  - apply dict_of_fold_NoDup. constructor.
Qed.

Lemma families_last_wins_witness :
  dict_get "f1"
    (families (Document [] []
                 [CodeFamily "f1" "1. Title" ["c1"];
                  CodeFamily "f2" "5. Context" ["c2"];
                  CodeFamily "f1" "3. Participant" ["c3"]] []))
  = Some ("3. Participant", ["c3"])
  /\ NoDup (map fst
       (families (Document [] []
                    [CodeFamily "f1" "1. Title" ["c1"];
                     CodeFamily "f2" "5. Context" ["c2"];
                     CodeFamily "f1" "3. Participant" ["c3"]] []))).
Proof.
  apply (families_last_wins
           (Document [] []
              [CodeFamily "f1" "1. Title" ["c1"];
               CodeFamily "f2" "5. Context" ["c2"];
               CodeFamily "f1" "3. Participant" ["c3"]] [])
           [CodeFamily "f1" "1. Title" ["c1"];
            CodeFamily "f2" "5. Context" ["c2"]]
           [] (CodeFamily "f1" "3. Participant" ["c3"])).
  - reflexivity.
  - simpl. apply not_elem_of_nil.
Defined.

(** ** From the document to a cell of the table *)

(** In the table, the cell of a tactic's row under a header is the cell
    string of the last family with that name: the display names of the
    codes that are filed under the tactic and listed in the family, in
    ascending order of the code ids, joined with ["; "].  A family whose
    name is not one of the twelve headers has no cell in the table. *)
Theorem table_cell_content (how : index_rule) (doc : document)
    (tcs : list (string * gset string)) (df : data_frame)
    (t : string) (cells : list (option string))
    (f1 f2 : list (string * (string * list string)))
    (fid fname : string) (members : list string) :
  tactic_codes (build_code_index (doc_codes doc)) (quotes doc)
    (doc_codings doc) = Ok tcs ->
  run how doc = Ok df ->
  (t, cells) ∈ df_rows df ->
  families doc = f1 ++ (fid, (fname, members)) :: f2 ->
  fname ∉ map (fun f => f.2.1) f2 ->
  exists hs ns,
    cell_at cols cells fname
      = (if decide (fname ∈ cols) then Some (Str.join "; " ns) else None)
    /\ StronglySorted (fun a b => String.leb a b = true) hs
    /\ NoDup hs
    /\ (forall c, c ∈ hs <-> filed tcs t c /\ c ∈ members)
    /\ Forall2 (fun c n =>
                  code_to_name (build_code_index (doc_codes doc)) !! c = Some n)
               hs ns.
Proof.
  intros Htcs Hrun Hin Hfams Hlast. unfold run in Hrun.
  rewrite Htcs in Hrun. simpl in Hrun.
  destruct (build_output _ _ _) as [out|] eqn:Hout; simpl in Hrun; [|done].
  apply sort_index_ok in Hrun as [_ Hperm]. rewrite Hperm in Hin.
  apply reindex_from_dict_rows in Hin as (row & Hrow & ->).
  pose proof (tactic_codes_NoDup _ _ _ _ Htcs) as Hnd.
  assert (t ∈ map fst tcs) as Hkey.
  { rewrite <- (output_labels _ _ _ _ Hout Hnd).
    apply list_elem_of_fmap. exists (t, row).
    split; [done | by apply dict_get_Some_elem]. }
  apply list_elem_of_fmap in Hkey as ([t' cids] & -> & Hkey).
  cbn [fst] in *.
  pose proof Hkey as Hsplit.
  apply list_elem_of_split in Hsplit as (t1 & t2 & Htcs').
  assert (t' ∉ map fst t2) as Hlast'.
  { rewrite Htcs', map_app in Hnd. simpl in Hnd.
    apply NoDup_app in Hnd as (_ & _ & Hnd).
    by apply NoDup_cons in Hnd as [? _]. }
  destruct (build_output_row _ _ _ _ _ _ _ _ Hout Htcs' Hlast')
    as (row' & Hrow' & Hget).
  rewrite Hrow in Hget. injection Hget as <-.
  destruct (build_row_cell _ _ _ _ _ _ _ _ _ Hrow' Hfams Hlast)
    as (s & Hcell & Hget').
  apply cell_ok in Hcell as (ns & Hns & ->).
  destruct (hits_spec cids members) as (Hs & Hn & Hm).
  exists (hits cids members), ns. split_and!; [|done..| |done].
  - destruct (decide (fname ∈ cols)) as [Hc|Hc].
    + by rewrite cell_at_map.
    + by apply cell_at_absent.
  - intros c. rewrite Hm. unfold filed.
    rewrite (dict_get_NoDup _ _ _ (tactic_codes_NoDup _ _ _ _ Htcs) Hkey).
    split.
    + intros [? ?]. split; [by exists cids | done].
    + by intros [(? & [= <-] & ?) ?].
Qed.

Lemma table_cell_content_witness :
  exists hs ns,
    cell_at cols
      [Some "Alpha"; None; None; None; Some "Alpha; Pool"; None; None; None;
       None; None; None; None] "5. Context"
      = (if decide ("5. Context" ∈ cols) then Some (Str.join "; " ns)
         else None)
    /\ StronglySorted (fun a b => String.leb a b = true) hs
    /\ NoDup hs
    /\ (forall c, c ∈ hs <->
          filed [("1", {["c1"]}); ("10", {["c2"; "c3"]});
                 ("9", {["c4"; "c2"]})] "9" c
          /\ c ∈ ["c3"; "c4"; "c2"])
    /\ Forall2 (fun c n =>
                  code_to_name (build_code_index (doc_codes paper_example))
                    !! c = Some n)
               hs ns.
Proof.
  apply (table_cell_content FromKeys paper_example
           [("1", {["c1"]}); ("10", {["c2"; "c3"]}); ("9", {["c4"; "c2"]})]
           (DataFrame cols
              [("1", [Some "Zeta"; None; None; None; Some ""; None; None;
                      None; None; None; None; None]);
               ("9", [Some "Alpha"; None; None; None; Some "Alpha; Pool";
                      None; None; None; None; None; None; None]);
               ("10", [Some "Alpha"; None; None; None; Some "Alpha; Cache";
                       None; None; None; None; None; None; None])])
           "9" _
           [("f1", ("1. Title", ["c1"; "c2"]))]
           [("f3", ("Unlisted", ["c1"]))]
           "f2" "5. Context" ["c3"; "c4"; "c2"]).
  - vm_compute. reflexivity.
  - vm_compute. reflexivity.
  - apply list_elem_of_further, list_elem_of_here.
  - vm_compute. reflexivity.
  - simpl. apply not_elem_of_cons. split; [done | apply not_elem_of_nil].
Defined.
